(** * snoopbot-v2: the permission store and the permission command

    A shallow embedding of [src/commands/permission.ts].

    - The state of the store is the text of [permissions.json], which is
      taken to exist.  Every query and every mutation reads it again with
      [JSON.parse]; every mutation rewrites it with
      [JSON.stringify(_, undefined, 4)].  Both are embedded here.
    - A JavaScript string is a [string], one byte per UTF-16 code unit: the
      model covers the code units below 256.  The literal texts of the
      messages are kept as the bytes of the source file.  Numbers (IEEE
      doubles) are outside the modelled JSON fragment.
    - A JavaScript object used as a dictionary is a [gmap]: the properties
      an object inherits from its prototype and the enumeration order of its
      keys are not part of the model.  The Settings Document is typed after
      the paths the code reads and writes; every property the code tests
      against [undefined] is optional.
    - An exception is an [Err]: [TypeError] for a property read of
      [undefined], [SyntaxError] for a text [JSON.parse] rejects.
    - [AdminUtils], the messaging API and the command registry are not part
      of these sources; they enter as parameters. *)

From Stdlib Require Import Ascii String.
From stdpp Require Import base option list strings gmap fin_maps.

Local Open Scope char_scope.
Local Open Scope list_scope.

(** ** Outcomes of fallible code *)

Inductive error : Type :=
| SyntaxError   (* thrown by JSON.parse *)
| TypeError     (* property access on undefined *)
| Unmodelled.   (* the input leaves the modelled fragment *)

Inductive result (A : Type) : Type :=
| Ok (a : A)
| Err (e : error).
Arguments Ok {A} a.
Arguments Err {A} e.

Definition bind {A B : Type} (m : result A) (k : A -> result B) : result B :=
  match m with
  | Ok a => k a
  | Err e => Err e
  end.

Notation "'do' x <- m ; k" := (bind m (fun x => k))
  (at level 10, x name, m at level 100, k at level 200).
Notation "'do' ' p <- m ; k" := (bind m (fun x => match x with p => k end))
  (at level 10, p pattern, m at level 100, k at level 200).

(** ** JSON text *)

Module JSON.

#[local] Unset Elimination Schemes.
Inductive json : Type :=
| JNull
| JBool (b : bool)
| JString (s : string)
| JArray (items : list json)
| JObject (members : list (string * json)).
#[local] Set Elimination Schemes.

(** The member list of [JObject] is the list of members as written in the
    text; the object it denotes is obtained by inserting them in order, a
    later member replacing an earlier one of the same name. *)

(** *** JSON.stringify with a gap of four spaces *)

Definition hex_digit (n : N) : ascii :=
  match n with
  | 0%N => "0" | 1%N => "1" | 2%N => "2" | 3%N => "3" | 4%N => "4"
  | 5%N => "5" | 6%N => "6" | 7%N => "7" | 8%N => "8" | 9%N => "9"
  | 10%N => "a" | 11%N => "b" | 12%N => "c" | 13%N => "d" | 14%N => "e"
  | _ => "f"
  end.

(** QuoteJSONString, one code unit. *)
Definition quote_char (c : ascii) : list ascii :=
  match c with
  | "008" => ["\"; "b"]
  | "009" => ["\"; "t"]
  | "010" => ["\"; "n"]
  | "012" => ["\"; "f"]
  | "013" => ["\"; "r"]
  | "034" => ["\"; "034"]
  | "\" => ["\"; "\"]
  | _ =>
      let n := N_of_ascii c in
      if (n <? 32)%N
      then ["\"; "u"; "0"; "0"; hex_digit (n / 16); hex_digit (n mod 16)]
      else [c]
  end.

Fixpoint quote_chars (s : string) : list ascii :=
  match s with
  | EmptyString => []
  | String c s' => quote_char c ++ quote_chars s'
  end.

Definition quote (s : string) : list ascii :=
  "034" :: quote_chars s ++ ["034"].

Definition gap : list ascii := [" "; " "; " "; " "].

Fixpoint indent (n : nat) : list ascii :=
  match n with
  | 0 => []
  | S n' => gap ++ indent n'
  end.

Definition newline (n : nat) : list ascii := "010" :: indent n.

(** The text of a non-primitive: the parts joined by a comma and a line
    break at the inner indentation, between the two brackets. *)
Definition bracket (o c : ascii) (ind : nat) (partial : list (list ascii))
  : list ascii :=
  match partial with
  | [] => [o; c]
  | p :: ps =>
      o :: newline (S ind) ++ p
        ++ concat (map (fun q => "," :: newline (S ind) ++ q) ps)
        ++ newline ind ++ [c]
  end.

Fixpoint stringify_value (ind : nat) (j : json) : list ascii :=
  match j with
  | JNull => ["n"; "u"; "l"; "l"]
  | JBool true => ["t"; "r"; "u"; "e"]
  | JBool false => ["f"; "a"; "l"; "s"; "e"]
  | JString s => quote s
  | JArray items =>
      bracket "[" "]" ind (map (stringify_value (S ind)) items)
  | JObject members =>
      bracket "{" "}" ind
        (map (fun kv => quote (fst kv) ++ ":" :: " " :: stringify_value (S ind) (snd kv))
           members)
  end.

Definition stringify (j : json) : string :=
  string_of_list_ascii (stringify_value 0 j).

(** *** JSON.parse *)

Definition is_ws (c : ascii) : bool :=
  match c with
  | " " | "009" | "010" | "013" => true
  | _ => false
  end.

Fixpoint skip_ws (s : list ascii) : list ascii :=
  match s with
  | c :: r => if is_ws c then skip_ws r else s
  | [] => []
  end.

Definition hex_value (c : ascii) : option N :=
  let n := N_of_ascii c in
  if ((48 <=? n) && (n <=? 57))%N then Some (n - 48)%N
  else if ((97 <=? n) && (n <=? 102))%N then Some (n - 87)%N
  else if ((65 <=? n) && (n <=? 70))%N then Some (n - 55)%N
  else None.

(** The code unit written as a backslash, [u] and four hexadecimal digits. *)
Definition unicode_escape (a b c d : ascii) : result ascii :=
  match hex_value a, hex_value b, hex_value c, hex_value d with
  | Some x, Some y, Some z, Some w =>
      let n := (((x * 16 + y) * 16 + z) * 16 + w)%N in
      if (n <? 256)%N then Ok (ascii_of_N n) else Err Unmodelled
  | _, _, _, _ => Err SyntaxError
  end.

(** The character an escape other than [u] stands for. *)
Definition escape (e : ascii) : result ascii :=
  match e with
  | "034" => Ok "034"
  | "\" => Ok "\"
  | "/" => Ok "/"
  | "b" => Ok "008"
  | "f" => Ok "012"
  | "n" => Ok "010"
  | "r" => Ok "013"
  | "t" => Ok "009"
  | _ => Err SyntaxError
  end.

(** The characters of a string literal, after its opening quote. *)
Fixpoint parse_string (s : list ascii) : result (string * list ascii) :=
  match s with
  | [] => Err SyntaxError
  | c :: r =>
      if Ascii.eqb c "034" then Ok (EmptyString, r)
      else if Ascii.eqb c "\" then
        match r with
        | [] => Err SyntaxError
        | e :: r =>
            if Ascii.eqb e "u" then
              match r with
              | a :: b :: c :: d :: r' =>
                  do x <- unicode_escape a b c d;
                  do '(str, r'') <- parse_string r';
                  Ok (String x str, r'')
              | _ => Err SyntaxError
              end
            else
              do x <- escape e;
              do '(str, r') <- parse_string r;
              Ok (String x str, r')
        end
      else if (N_of_ascii c <? 32)%N then Err SyntaxError
      else
        do '(str, r') <- parse_string r;
        Ok (String c str, r')
  end.

(** The rest of the input when it starts with [c]. *)
Definition expect (c : ascii) (s : list ascii) : option (list ascii) :=
  match s with
  | c' :: r => if Ascii.eqb c c' then Some r else None
  | [] => None
  end.

(** The rest of the input when it starts with the word [w]. *)
Fixpoint strip (w s : list ascii) : option (list ascii) :=
  match w with
  | [] => Some s
  | c :: w' =>
      match expect c s with
      | Some r => strip w' r
      | None => None
      end
  end.

Definition starts_number (c : ascii) : bool :=
  let n := N_of_ascii c in
  ((48 <=? n) && (n <=? 57))%N || (n =? 45)%N.

(** The three literal names; a number is outside the fragment. *)
Definition parse_literal (s : list ascii) : result (json * list ascii) :=
  match strip ["n"; "u"; "l"; "l"] s with
  | Some r => Ok (JNull, r)
  | None =>
  match strip ["t"; "r"; "u"; "e"] s with
  | Some r => Ok (JBool true, r)
  | None =>
  match strip ["f"; "a"; "l"; "s"; "e"] s with
  | Some r => Ok (JBool false, r)
  | None =>
  match s with
  | c :: _ => if starts_number c then Err Unmodelled else Err SyntaxError
  | [] => Err SyntaxError
  end end end end.

Fixpoint parse_value (fuel : nat) (s : list ascii) {struct fuel}
  : result (json * list ascii) :=
  match fuel with
  | 0 => Err Unmodelled
  | S fuel' =>
      let s := skip_ws s in
      match expect "[" s with
      | Some r =>
          match expect "]" (skip_ws r) with
          | Some r' => Ok (JArray [], r')
          | None =>
              do '(items, r') <- parse_elements fuel' r;
              Ok (JArray items, r')
          end
      | None =>
      match expect "{" s with
      | Some r =>
          match expect "}" (skip_ws r) with
          | Some r' => Ok (JObject [], r')
          | None =>
              do '(members, r') <- parse_members fuel' r;
              Ok (JObject members, r')
          end
      | None =>
      match expect "034" s with
      | Some r =>
          do '(str, r') <- parse_string r;
          Ok (JString str, r')
      | None => parse_literal s
      end end end
  end
with parse_elements (fuel : nat) (s : list ascii) {struct fuel}
  : result (list json * list ascii) :=
  match fuel with
  | 0 => Err Unmodelled
  | S fuel' =>
      do '(x, r) <- parse_value fuel' s;
      let r := skip_ws r in
      match expect "," r with
      | Some r' =>
          do '(xs, r'') <- parse_elements fuel' r';
          Ok (x :: xs, r'')
      | None =>
      match expect "]" r with
      | Some r' => Ok ([x], r')
      | None => Err SyntaxError
      end end
  end
with parse_members (fuel : nat) (s : list ascii) {struct fuel}
  : result (list (string * json) * list ascii) :=
  match fuel with
  | 0 => Err Unmodelled
  | S fuel' =>
      match expect "034" (skip_ws s) with
      | Some r =>
          do '(k, r1) <- parse_string r;
          match expect ":" (skip_ws r1) with
          | Some r2 =>
              do '(v, r3) <- parse_value fuel' r2;
              let r3 := skip_ws r3 in
              match expect "," r3 with
              | Some r4 =>
                  do '(kvs, r5) <- parse_members fuel' r4;
                  Ok ((k, v) :: kvs, r5)
              | None =>
              match expect "}" r3 with
              | Some r4 => Ok ([(k, v)], r4)
              | None => Err SyntaxError
              end end
          | None => Err SyntaxError
          end
      | None => Err SyntaxError
      end
  end.

(** One value, then nothing but white space.  The fuel is an artefact of
    the embedding: above twice the length of the input it has no bearing on
    the result. *)
Definition parse (text : string) : result json :=
  let s := list_ascii_of_string text in
  do '(j, r) <- parse_value (2 * length s + 1) s;
  match skip_ws r with
  | [] => Ok j
  | _ => Err SyntaxError
  end.

End JSON.



(** ** The Settings Document *)

(** [permissions.json] maps a thread ID to a Thread Record, whose [users]
    maps a user ID to a User Record, whose [permissions] lists command
    names.  The code tests [users] and [permissions] against [undefined],
    so both are optional here; the records carry no other property, the
    code writes none. *)

Record UserRecord : Type := { permissions : option (list string) }.

Record ThreadRecord : Type := { users : option (gmap string UserRecord) }.

Abbreviation SettingsDocument := (gmap string ThreadRecord).

(** [Object.entries(thread).length] *)
Definition thread_entries (thread : ThreadRecord) : nat :=
  match users thread with
  | Some _ => 1
  | None => 0
  end.

Module Document.
Import JSON.

(** **** Reading a parsed text as a Settings Document *)

(** An object read as a dictionary: the members are defined in order. *)
Definition dictionary {A : Type} (value : json -> result A) (j : json)
  : result (gmap string A) :=
  match j with
  | JObject members =>
      fold_left
        (fun acc kv =>
           do m <- acc;
           do a <- value (snd kv);
           Ok (<[fst kv := a]> m))
        members (Ok ∅)
  | _ => Err Unmodelled
  end.

(** An object with at most the one property [name]. *)
Definition property {A : Type} (name : string) (value : json -> result A) (j : json)
  : result (option A) :=
  match j with
  | JObject members =>
      fold_left
        (fun acc kv =>
           do _ <- acc;
           if String.eqb (fst kv) name
           then do a <- value (snd kv); Ok (Some a)
           else Err Unmodelled)
        members (Ok None)
  | _ => Err Unmodelled
  end.

Fixpoint strings (items : list json) : result (list string) :=
  match items with
  | [] => Ok []
  | JString s :: items' => do l <- strings items'; Ok (s :: l)
  | _ :: _ => Err Unmodelled
  end.

Definition command_names (j : json) : result (list string) :=
  match j with
  | JArray items => strings items
  | _ => Err Unmodelled
  end.

Definition user_record (j : json) : result UserRecord :=
  do ps <- property "permissions" command_names j;
  Ok {| permissions := ps |}.

Definition thread_record (j : json) : result ThreadRecord :=
  do us <- property "users" (dictionary user_record) j;
  Ok {| users := us |}.

Definition of_json (j : json) : result SettingsDocument :=
  dictionary thread_record j.

(** **** The value handed to JSON.stringify *)

(** The members are listed in the order of [map_to_list]; JavaScript lists
    them in insertion order, which the dictionary does not record. *)
Definition of_dictionary {A : Type} (value : A -> json) (m : gmap string A) : json :=
  JObject (map (fun kv => (fst kv, value (snd kv))) (map_to_list m)).

Definition of_property {A : Type} (name : string) (value : A -> json) (o : option A)
  : json :=
  match o with
  | Some a => JObject [(name, value a)]
  | None => JObject []
  end.

Definition of_command_names (ps : list string) : json := JArray (map JString ps).

Definition of_user_record (user : UserRecord) : json :=
  of_property "permissions" of_command_names (permissions user).

Definition of_thread_record (thread : ThreadRecord) : json :=
  of_property "users" (of_dictionary of_user_record) (users thread).

Definition to_json (d : SettingsDocument) : json :=
  of_dictionary of_thread_record d.

End Document.

(** ** Array and string primitives *)

(** [Array.prototype.includes] on an array of strings *)
Fixpoint includes (l : list string) (x : string) : bool :=
  match l with
  | [] => false
  | y :: l' => if String.eqb y x then true else includes l' x
  end.

(** White space of [String.prototype.trim] among the code units below 256 *)
Definition is_space (c : ascii) : bool :=
  match c with
  | "009" | "010" | "011" | "012" | "013" | " " | "160" => true
  | _ => false
  end.

Fixpoint trim_start (s : list ascii) : list ascii :=
  match s with
  | c :: r => if is_space c then trim_start r else s
  | [] => []
  end.

Definition trim (s : string) : string :=
  string_of_list_ascii
    (rev (trim_start (rev (trim_start (list_ascii_of_string s))))).

(** [s.split(sep)] for a separator of one character *)
Fixpoint split (sep : ascii) (s : string) : list string :=
  match s with
  | EmptyString => [EmptyString]
  | String c r =>
      if Ascii.eqb c sep then EmptyString :: split sep r
      else
        match split sep r with
        | cur :: rest => String c cur :: rest
        | [] => [String c EmptyString]
        end
  end.

(** [arr.join(sep)] *)
Definition join (sep : string) (l : list string) : string := String.concat sep l.

(** [s.indexOf(t) === -1] *)
Definition lacks (s t : string) : bool :=
  match String.index 0 t s with
  | Some _ => false
  | None => true
  end.

(** ** The administrator registry *)

(** [AdminUtils] is not part of these sources.  The answer of
    [getThreadAdmins] is modelled after the properties [userHasPermission]
    reads of it: [admins] is read under a non-null assertion and only when
    [hasError] is false; [botOwner] is compared whatever [hasError] is. *)
Record ThreadAdmins : Type := {
  hasError : bool;
  admins : list string;
  botOwner : option string
}.

(** ** PermissionUtil *)

(** The state is the text of [permissions.json]. *)

Module PermissionUtil.

(** The parsed value is read as a Settings Document; a value of another
    shape is outside the model. *)
Definition getPermissionSettings (file : string) : result SettingsDocument :=
  let jsonString := file in
  do j <- JSON.parse (if String.eqb jsonString EmptyString then "{}" else jsonString);
  Document.of_json j.

(** The text written to the file. *)
Definition savePermissionSettings (newPermissionSettings : SettingsDocument) : string :=
  JSON.stringify (Document.to_json newPermissionSettings).

Section WithRegistry.

Variable getThreadAdmins : string -> ThreadAdmins.

Definition userHasPermission (file : string) (threadID userID : string)
  (commands : list string) : result bool :=
  do settings <- getPermissionSettings file;
  let threadAdmins := getThreadAdmins threadID in
  let admins := if hasError threadAdmins then [] else admins threadAdmins in
  if includes admins userID || bool_decide (botOwner threadAdmins = Some userID)
  then Ok true
  else
    match settings !! threadID with
    | Some thread =>
        match users thread with
        | None => Err TypeError
        | Some threadUsers =>
            match threadUsers !! userID with
            | Some user =>
                match permissions user, commands with
                | Some perms, _ =>
                    let count :=
                      fold_left
                        (fun count command =>
                           count + (if includes perms command then 1 else 0))
                        commands 0 in
                    Ok (Nat.eqb count (length commands))
                | None, [] => Ok true
                | None, _ :: _ => Err TypeError
                end
            | None => Ok false
            end
        end
    | None => Ok false
    end.

(** The result and the text of the file afterwards. *)
Definition addPermissionToUserInThread (file : string) (threadID userID : string)
  (commands : list string) : result (bool * string) :=
  do held <- userHasPermission file threadID userID commands;
  if held then Ok (false, file)
  else
    do settings <- getPermissionSettings file;
    let thread := default {| users := None |} (settings !! threadID) in
    let threadUsers := default ∅ (users thread) in
    let user := default {| permissions := None |} (threadUsers !! userID) in
    let perms := default [] (permissions user) in
    let user := {| permissions := Some (perms ++ commands) |} in
    let thread := {| users := Some (<[userID := user]> threadUsers) |} in
    Ok (true, savePermissionSettings (<[threadID := thread]> settings)).

End WithRegistry.

Definition removePermissionFromUserInThread (file : string) (threadID userID : string)
  (commands : list string) : result (bool * string) :=
  do settings <- getPermissionSettings file;
  match settings !! threadID with
  | None => Ok (false, file)
  | Some thread =>
  match users thread with
  | None => Ok (false, file)
  | Some threadUsers =>
  match threadUsers !! userID with
  | None => Ok (false, file)
  | Some user =>
  match permissions user with
  | None => Ok (false, file)
  | Some userGrantedPerms =>
      if Nat.eqb (length userGrantedPerms) 0 then Ok (true, file)
      else
        let perms :=
          List.filter (fun command => negb (includes commands command))
            userGrantedPerms in
        let threadUsers :=
          if Nat.eqb (length perms) 0 then delete userID threadUsers
          else <[userID := {| permissions := Some perms |}]> threadUsers in
        let thread :=
          if Nat.eqb (size threadUsers) 0 then {| users := None |}
          else {| users := Some threadUsers |} in
        let settings :=
          if Nat.eqb (thread_entries thread) 0 then delete threadID settings
          else <[threadID := thread]> settings in
        Ok (true, savePermissionSettings settings)
  end end end end.

End PermissionUtil.

(** ** PermissionCommand *)

(** The collaborators of the handler: the messaging API, the command
    registry handed over by the dispatcher and the inbound event.  None of
    them is part of these sources; each is modelled after the properties the
    handler reads. *)

Record CommandOptions : Type := { name : string; adminOnly : bool }.

Record UserInfo : Type := { id : string; user_name : string }.

Record ThreadInfo : Type := {
  participantIDs : list string;
  userInfo : list UserInfo
}.

(** [mentions] is an object from user ID to tag, kept in enumeration order. *)
Record Event : Type := {
  threadID : string;
  messageID : string;
  mentions : list (string * string)
}.

(** A mention of an outbound message; its [fromIndex], an offset into the
    body, is not modelled. *)
Record Mention : Type := { mention_id : string; tag : string }.

Inductive Message : Type :=
| Text (body : string)
| WithMentions (body : string) (mentions : list Mention).

(** What a handler leaves behind: the text of [permissions.json] and the
    messages handed to [api.sendMessage], oldest first. *)
Record World : Type := { store : string; sent : list Message }.

Definition sendMessage (message : Message) (w : World) : World :=
  {| store := store w; sent := sent w ++ [message] |}.

(** [persons[key] = value] *)
Fixpoint assign (key value : string) (persons : list (string * string))
  : list (string * string) :=
  match persons with
  | [] => [(key, value)]
  | (k, v) :: rest =>
      if String.eqb k key then (k, value) :: rest
      else (k, v) :: assign key value rest
  end.

(** The line feed of the message templates *)
Definition LF : string := String "010" EmptyString.

Module PermissionCommand.

Section WithCollaborators.

Variable getThreadAdmins : string -> ThreadAdmins.
Variable getThreadInfo : string -> ThreadInfo.

(** The [forEach] over the participants of the thread: every participant is
    looked up in [userInfo]; reading [id] of a missing entry throws. *)
Definition everyone (threadInfo : ThreadInfo) (persons : list (string * string))
  : result (list (string * string)) :=
  fold_left
    (fun acc participantID =>
       do persons <- acc;
       match List.find (fun uinfo => String.eqb (id uinfo) participantID)
               (userInfo threadInfo) with
       | Some uinfo => Ok (assign (id uinfo) ("@" +:+ user_name uinfo) persons)
       | None => Err TypeError
       end)
    (participantIDs threadInfo) (Ok persons).

(** The administrator-only filter followed by the trimming of each entry. *)
Definition applied (commandsToGive : list string) (commands : list CommandOptions)
  : list string :=
  let adminCommands := map name (List.filter adminOnly commands) in
  map trim
    (List.filter (fun command => negb (includes adminCommands command)) commandsToGive).

(** The loop over the target users: one store call each, the running
    message text and the mentions. *)
Definition for_each_person
  (store : string -> string -> result (bool * string))
  (persons : list (string * string)) (file : string) (msg : string)
  : result (string * string * list Mention) :=
  fold_left
    (fun acc person =>
       do '(file, msg, mentions) <- acc;
       do '(_, file) <- store file (fst person);
       Ok (file, msg +:+ snd person +:+ " ",
           mentions ++ [{| mention_id := fst person; tag := snd person |}]))
    persons (Ok (file, msg, [])).

Definition drop_last (msg : string) : string :=
  String.substring 0 (String.length msg - 1) msg.

(** [grant] from the validation of the commands on. *)
Definition grant_commands (event : Event) (commandsToGive : list string)
  (commands : list CommandOptions) (persons : list (string * string)) (w : World)
  : result World :=
  let hasCommands :=
    existsb (fun command => includes commandsToGive (name command)) commands in
  if negb hasCommands
  then
    Ok (sendMessage
          (Text ("⚠️ Unknown command(s): '" +:+ join "," commandsToGive +:+ "'."))
          w)
  else
    let commandsToGive := applied commandsToGive commands in
    do '(file, msg, mentions) <-
      for_each_person
        (fun file key =>
           PermissionUtil.addPermissionToUserInThread getThreadAdmins
             file (threadID event) key commandsToGive)
        persons (store w) ("🤖Gave permission to: " +:+ LF +:+ LF);
    let msg := drop_last msg in
    let message :=
      WithMentions
        (msg +:+ LF +:+ LF +:+ "For command(s): " +:+ LF +:+ LF
           +:+ "'" +:+ join ", " commandsToGive +:+ "'.")
        mentions in
    Ok (sendMessage message {| store := file; sent := sent w |}).

Definition grant (matches : list string) (event : Event)
  (commandsToGive : list string) (commands : list CommandOptions)
  (persons : list (string * string)) (w : World) : result World :=
  let commandsToGive :=
    if bool_decide (head commandsToGive = Some "all"%string)
    then map name commands else commandsToGive in
  if Nat.eqb (length persons) 0
  then
    do text <- from_option Ok (Err TypeError) (matches !! 0);
    if lacks text "@all"
    then
      Ok (sendMessage
            (Text "⚠️No person is being granted permission(s), please type @all or @person.")
            w)
    else
      do persons <- everyone (getThreadInfo (threadID event)) persons;
      grant_commands event commandsToGive commands persons w
  else grant_commands event commandsToGive commands persons w.

(** [revoke] from the validation of the commands on. *)
Definition revoke_commands (event : Event) (commandsToRevoke : list string)
  (commands : list CommandOptions) (persons : list (string * string)) (w : World)
  : result World :=
  let hasCommand :=
    existsb (fun command => includes commandsToRevoke (name command)) commands in
  if negb hasCommand
  then
    Ok (sendMessage
          (Text ("⚠️Unknown command(s): '" +:+ join "," commandsToRevoke +:+ "'."))
          w)
  else
    let commandsToRevoke := applied commandsToRevoke commands in
    do '(file, msg, mentions) <-
      for_each_person
        (fun file key =>
           PermissionUtil.removePermissionFromUserInThread
             file (threadID event) key commandsToRevoke)
        persons (store w) ("🤖Revoked permission to: " +:+ LF +:+ LF);
    let msg := drop_last msg in
    let message :=
      WithMentions
        (msg +:+ LF +:+ LF +:+ "For command(s): " +:+ LF +:+ LF
           +:+ "'" +:+ join ", " commandsToRevoke +:+ "'.")
        mentions in
    Ok (sendMessage message {| store := file; sent := sent w |}).

Definition revoke (matches : list string) (event : Event)
  (commandsToRevoke : list string) (commands : list CommandOptions)
  (persons : list (string * string)) (w : World) : result World :=
  let commandsToRevoke :=
    if bool_decide (head commandsToRevoke = Some "all"%string)
    then map name commands else commandsToRevoke in
  if Nat.eqb (length persons) 0
  then
    do text <- from_option Ok (Err TypeError) (matches !! 0);
    if lacks text "@all"
    then
      Ok (sendMessage
            (Text "⚠️No person is being revoked of permission(s), please type @all or @person.")
            w)
    else
      do persons <- everyone (getThreadInfo (threadID event)) persons;
      revoke_commands event commandsToRevoke commands persons w
  else revoke_commands event commandsToRevoke commands persons w.

Definition list_ (w : World) : result World :=
  Ok (sendMessage (Text "🤖This command is currently under development.") w).

Definition execute (matches : list string) (event : Event)
  (commands : list CommandOptions) (w : World) : result World :=
  do action <- from_option Ok (Err TypeError) (matches !! 1);
  do requested <- from_option Ok (Err TypeError) (matches !! 2);
  let commandsToGive := split "," (trim requested) in
  let persons := mentions event in
  if String.eqb action "grant"
  then grant matches event commandsToGive commands persons w
  else if String.eqb action "revoke"
  then revoke matches event commandsToGive commands persons w
  else if String.eqb action "list"
  then list_ w
  else Ok w.

End WithCollaborators.

End PermissionCommand.

(** ** Vocabulary of the specification *)

(** The User Record stored for a user under a thread. *)
Definition user_record_of (d : SettingsDocument) (threadID userID : string)
  : option UserRecord :=
  thread ← d !! threadID; threadUsers ← users thread; threadUsers !! userID.

(** The user is a thread administrator, a failed lookup counting as no
    administrators, or the bot owner. *)
Definition privileged (getThreadAdmins : string -> ThreadAdmins)
  (threadID userID : string) : Prop :=
  (hasError (getThreadAdmins threadID) = false
   /\ userID ∈ admins (getThreadAdmins threadID))
  \/ botOwner (getThreadAdmins threadID) = Some userID.

(** Every requested command is in the permissions collection of the record. *)
Definition holds_all (user : UserRecord) (commands : list string) : Prop :=
  forall command, command ∈ commands ->
    exists perms, permissions user = Some perms /\ command ∈ perms.

(** The [users] mapping of a thread and the permissions of a user, empty
    where the code would create them. *)
Definition users_of (d : SettingsDocument) (threadID : string)
  : gmap string UserRecord :=
  default ∅ (thread ← d !! threadID; users thread).

Definition permissions_of (d : SettingsDocument) (threadID userID : string)
  : list string :=
  default [] (user ← user_record_of d threadID userID; permissions user).

(** The document after a grant: the commands appended to what the user
    holds, every level on the path created where it was missing. *)
Definition granted (d : SettingsDocument) (threadID userID : string)
  (commands : list string) : SettingsDocument :=
  let user := {| permissions := Some (permissions_of d threadID userID ++ commands) |} in
  <[threadID := {| users := Some (<[userID := user]> (users_of d threadID)) |}]> d.

(** What is left of a permissions collection once every occurrence of the
    requested commands is removed. *)
Definition remaining (perms commands : list string) : list string :=
  filter (fun command => command ∉ commands) perms.

(** The document after a revocation that leaves [perms] to the user: an
    empty User Record is removed, then an empty [users] mapping and with it
    the then empty Thread Record. *)
Definition pruned (d : SettingsDocument) (threadID userID : string)
  (threadUsers : gmap string UserRecord) (perms : list string) : SettingsDocument :=
  match perms with
  | [] =>
      if decide (delete userID threadUsers = ∅) then delete threadID d
      else <[threadID := {| users := Some (delete userID threadUsers) |}]> d
  | _ :: _ =>
      <[threadID :=
          {| users := Some (<[userID := {| permissions := Some perms |}]> threadUsers) |}]> d
  end.




(** The command names a grant or a revocation is asked for: the list of the
    message, or every registered name when its first entry is [all]. *)
Definition target_commands (requested : string) (commands : list CommandOptions)
  : list string :=
  let commandsToGive := split "," (trim requested) in
  if bool_decide (head commandsToGive = Some "all"%string)
  then map name commands else commandsToGive.

(** The thread info lists every participant among its users. *)
Definition participants_known (threadInfo : ThreadInfo) : Prop :=
  forall participantID, participantID ∈ participantIDs threadInfo ->
    exists uinfo, uinfo ∈ userInfo threadInfo /\ id uinfo = participantID.

(** ** Sample data *)

(** A registry with one administrator and an owner, whatever the thread. *)
Definition sample_registry : string -> ThreadAdmins :=
  fun _ => {| hasError := false; admins := ["A1"%string]; botOwner := Some "B1"%string |}.

(** The document of the scenario of section 8: [meme] granted to [U1] in
    [T1], and the text that holds it. *)
Definition sample_document : SettingsDocument :=
  granted ∅ "T1" "U1" ["meme"%string].

Definition sample_file : string :=
  PermissionUtil.savePermissionSettings sample_document.

Definition sample_commands : list CommandOptions :=
  [ {| name := "meme"; adminOnly := false |}; {| name := "ban"; adminOnly := true |} ].

Definition sample_event : Event :=
  {| threadID := "T1"; messageID := "M1"; mentions := [("U1"%string, "@Bob"%string)] |}.

Definition sample_thread_info : string -> ThreadInfo :=
  fun _ =>
    {| participantIDs := ["U1"%string; "U2"%string];
       userInfo := [ {| id := "U1"; user_name := "Bob" |};
                     {| id := "U2"; user_name := "Al" |} ] |}.

Definition empty_world : World := {| store := EmptyString; sent := [] |}.

(** A Thread Record without its [users] mapping and a User Record without
    its [permissions] collection, as a hand-edited file may hold them. *)
Definition bare_thread_file : string :=
  PermissionUtil.savePermissionSettings {[ "T1"%string := {| users := None |} ]}.

Definition bare_user_file : string :=
  PermissionUtil.savePermissionSettings
    {[ "T1"%string := {| users := Some {[ "U1"%string := {| permissions := None |} ]} |} ]}.

(** [meme] granted to [U1] and [U2] in [T1]. *)
Definition two_users_document : SettingsDocument :=
  granted sample_document "T1" "U2" ["meme"%string].

Definition two_users_file : string :=
  PermissionUtil.savePermissionSettings two_users_document.

(** A thread info that lists the participant [U3] but not among its users,
    and an event without mentions. *)
Definition partial_thread_info : string -> ThreadInfo :=
  fun _ =>
    {| participantIDs := ["U1"%string; "U3"%string];
       userInfo := [ {| id := "U1"; user_name := "Bob" |} ] |}.

Definition bare_event : Event :=
  {| threadID := "T1"; messageID := "M1"; mentions := [] |}.



(** ** Notions of the proofs *)

Module Measures.
Import JSON.

(** The fuel a value asks of the parser, less one. *)
Fixpoint weight (j : json) : nat :=
  match j with
  | JArray items => S (list_sum (map (fun x => S (weight x)) items))
  | JObject members => S (list_sum (map (fun kv => S (weight (snd kv))) members))
  | _ => 0
  end.

(** What the round trip asks of one value. *)
Definition reparses (j : json) : Prop :=
  forall ind rest fuel,
    weight j < fuel ->
    parse_value fuel (stringify_value ind j ++ rest) = Ok (j, rest).

Definition elements_weight (xs : list json) : nat :=
  list_sum (map (fun x => S (weight x)) xs).

Definition members_weight (kvs : list (string * json)) : nat :=
  list_sum (map (fun kv => S (weight (snd kv))) kvs).

(** The text of one member of an object. *)
Definition member (ind : nat) (kv : string * json) : list ascii :=
  quote (fst kv) ++ ":" :: " " :: stringify_value ind (snd kv).

(** Defining the members one after the other, from the first on. *)
Definition define_all {A : Type} (l : list (string * A)) (m : gmap string A)
  : gmap string A :=
  fold_left (fun m kv => <[fst kv := snd kv]> m) l m.

(** The counting loop of [userHasPermission]. *)
Definition count_held (perms commands : list string) (start : nat) : nat :=
  fold_left
    (fun count command => count + (if includes perms command then 1 else 0))
    commands start.

End Measures.

(** * Proofs *)

Module JSONFacts.
Import JSON Measures.

Lemma json_ind (P : json -> Prop) :
  P JNull ->
  (forall b, P (JBool b)) ->
  (forall s, P (JString s)) ->
  (forall items, Forall P items -> P (JArray items)) ->
  (forall members, Forall (fun kv => P (snd kv)) members -> P (JObject members)) ->
  forall j, P j.
Proof.
  intros Hn Hb Hs Ha Ho.
  fix IH 1. intros [ | b | s | items | members ].
  - exact Hn.
  - apply Hb.
  - apply Hs.
  - apply Ha. induction items as [ | x xs IHxs ]; constructor; [ apply IH | exact IHxs ].
  - apply Ho. induction members as [ | [k v] kvs IHkvs ]; constructor;
      [ apply IH | exact IHkvs ].
Qed.

Lemma skip_ws_indent n s : skip_ws (indent n ++ s) = skip_ws s.
Proof. induction n as [ | n IHn ]; [ reflexivity | exact IHn ]. Qed.

Lemma skip_ws_newline n s : skip_ws (newline n ++ s) = skip_ws s.
Proof. apply skip_ws_indent. Qed.

Lemma skip_ws_idem s : skip_ws (skip_ws s) = skip_ws s.
Proof.
  induction s as [ | c r IHr ]; [ reflexivity | ].
  simpl. destruct (is_ws c) eqn:E; [ exact IHr | ]. simpl. now rewrite E.
Qed.

Lemma parse_value_skip_ws fuel s :
  parse_value fuel (skip_ws s) = parse_value fuel s.
Proof. destruct fuel; [ reflexivity | ]. simpl. now rewrite skip_ws_idem. Qed.

Lemma parse_elements_skip_ws fuel s :
  parse_elements fuel (skip_ws s) = parse_elements fuel s.
Proof. destruct fuel; [ reflexivity | ]. simpl. now rewrite parse_value_skip_ws. Qed.

Lemma parse_members_skip_ws fuel s :
  parse_members fuel (skip_ws s) = parse_members fuel s.
Proof. destruct fuel; [ reflexivity | ]. simpl. now rewrite skip_ws_idem. Qed.

Lemma parse_quote_char c s rest :
  parse_string (quote_char c ++ quote_chars s ++ "034" :: rest)
  = do '(str, r) <- parse_string (quote_chars s ++ "034" :: rest); Ok (String c str, r).
Proof.
  destruct c as [[] [] [] [] [] [] [] []]; reflexivity.
Qed.

Lemma parse_string_quote s rest :
  parse_string (quote_chars s ++ "034" :: rest) = Ok (s, rest).
Proof.
  induction s as [ | c s IHs ]; [ reflexivity | ].
  cbn [quote_chars]. rewrite <- app_assoc, parse_quote_char, IHs. reflexivity.
Qed.


Lemma skip_ws_stringify ind j rest :
  skip_ws (stringify_value ind j ++ rest) = stringify_value ind j ++ rest.
Proof. destruct j as [ | [] | s | [ | x xs ] | [ | kv kvs ] ]; reflexivity. Qed.

Lemma expect_stringify c ind j rest :
  c = "]" \/ c = "}" -> expect c (stringify_value ind j ++ rest) = None.
Proof.
  intros [-> | ->];
    destruct j as [ | [] | s | [ | x xs ] | [ | kv kvs ] ]; reflexivity.
Qed.

Lemma parse_value_array f r :
  parse_value (S f) ("[" :: r)
  = match expect "]" (skip_ws r) with
    | Some r' => Ok (JArray [], r')
    | None => do '(items, r') <- parse_elements f r; Ok (JArray items, r')
    end.
Proof. reflexivity. Qed.

Lemma parse_value_object f r :
  parse_value (S f) ("{" :: r)
  = match expect "}" (skip_ws r) with
    | Some r' => Ok (JObject [], r')
    | None => do '(members, r') <- parse_members f r; Ok (JObject members, r')
    end.
Proof. reflexivity. Qed.

Lemma parse_value_string f r :
  parse_value (S f) ("034" :: r)
  = do '(str, r') <- parse_string r; Ok (JString str, r').
Proof. reflexivity. Qed.

Lemma parse_elements_S f s :
  parse_elements (S f) s
  = do '(x, r) <- parse_value f s;
    match expect "," (skip_ws r) with
    | Some r' => do '(xs, r'') <- parse_elements f r'; Ok (x :: xs, r'')
    | None =>
        match expect "]" (skip_ws r) with
        | Some r' => Ok ([x], r')
        | None => Err SyntaxError
        end
    end.
Proof. reflexivity. Qed.

Lemma parse_members_S f r :
  parse_members (S f) ("034" :: r)
  = do '(k, r1) <- parse_string r;
    match expect ":" (skip_ws r1) with
    | Some r2 =>
        do '(v, r3) <- parse_value f r2;
        match expect "," (skip_ws r3) with
        | Some r4 => do '(kvs, r5) <- parse_members f r4; Ok ((k, v) :: kvs, r5)
        | None =>
            match expect "}" (skip_ws r3) with
            | Some r4 => Ok ([(k, v)], r4)
            | None => Err SyntaxError
            end
        end
    | None => Err SyntaxError
    end.
Proof. reflexivity. Qed.

Lemma parse_elements_stringify xs :
  Forall reparses xs ->
  forall x ind rest fuel,
    reparses x ->
    elements_weight (x :: xs) < fuel ->
    parse_elements fuel
      (stringify_value (S ind) x
         ++ concat (map (fun q => "," :: newline (S ind) ++ q)
                      (map (stringify_value (S ind)) xs))
         ++ newline ind ++ "]" :: rest)
    = Ok (x :: xs, rest).
Proof.
  induction 1 as [ | y ys Hy _ IHys ]; intros x ind rest fuel Hx Hfuel;
    (destruct fuel as [ | f ]; [ inversion Hfuel | ]);
    unfold elements_weight in *; cbn [map list_sum fold_right] in Hfuel;
    rewrite parse_elements_S, Hx by lia; cbn [bind].
  - cbn [map concat app]. rewrite skip_ws_newline. reflexivity.
  - cbn [map concat app skip_ws is_ws expect Ascii.eqb Bool.eqb andb].
    rewrite <- !app_assoc.
    rewrite <- parse_elements_skip_ws, skip_ws_newline, parse_elements_skip_ws.
    rewrite IHys by (try assumption; cbn [map list_sum fold_right]; lia).
    reflexivity.
Qed.

Lemma parse_members_stringify kvs :
  Forall (fun kv => reparses (snd kv)) kvs ->
  forall kv ind rest fuel,
    reparses (snd kv) ->
    members_weight (kv :: kvs) < fuel ->
    parse_members fuel
      (member (S ind) kv
         ++ concat (map (fun q => "," :: newline (S ind) ++ q)
                      (map (member (S ind)) kvs))
         ++ newline ind ++ "}" :: rest)
    = Ok (kv :: kvs, rest).
Proof.
  induction 1 as [ | kv' kvs' Hkv' _ IH ]; intros [k v] ind rest fuel Hv Hfuel;
    (destruct fuel as [ | f ]; [ inversion Hfuel | ]);
    unfold members_weight in *; cbn [map list_sum fold_right snd] in Hfuel, Hv;
    unfold member at 1, quote; cbn [fst snd app]; rewrite <- !app_assoc;
    cbn [app]; rewrite parse_members_S, parse_string_quote;
    cbn [bind skip_ws is_ws expect Ascii.eqb Bool.eqb andb];
    rewrite <- parse_value_skip_ws; cbn [skip_ws is_ws];
    rewrite parse_value_skip_ws, Hv by lia; cbn [bind].
  - cbn [map concat app]. rewrite skip_ws_newline. reflexivity.
  - cbn [map concat app skip_ws is_ws expect Ascii.eqb Bool.eqb andb].
    rewrite <- !app_assoc.
    rewrite <- parse_members_skip_ws, skip_ws_newline, parse_members_skip_ws.
    rewrite IH by (try assumption; cbn [map list_sum fold_right]; lia).
    reflexivity.
Qed.

Lemma parse_stringify_value j : reparses j.
Proof.
  induction j as [ | b | s | items IH | members IH ] using json_ind;
    intros ind rest fuel Hfuel; (destruct fuel as [ | f ]; [ inversion Hfuel | ]).
  - reflexivity.
  - destruct b; reflexivity.
  - cbn [stringify_value]. unfold quote. cbn [app]. rewrite <- app_assoc.
    cbn [app]. rewrite parse_value_string, parse_string_quote. reflexivity.
  - destruct IH as [ | x xs Hx Hxs ]; [ reflexivity | ].
    cbn [stringify_value map bracket app]. rewrite <- !app_assoc.
    rewrite parse_value_array, skip_ws_newline, skip_ws_stringify.
    rewrite expect_stringify by (left; reflexivity).
    rewrite <- parse_elements_skip_ws, skip_ws_newline, parse_elements_skip_ws.
    cbn [app]. rewrite (parse_elements_stringify xs Hxs x ind rest f Hx).
    + reflexivity.
    + cbn [weight] in Hfuel. unfold elements_weight. lia.
  - destruct IH as [ | [k v] kvs Hv Hkvs ]; [ reflexivity | ].
    cbn [stringify_value map bracket app].
    change (fun kv : string * json =>
              quote (fst kv) ++ ":" :: " " :: stringify_value (S ind) (snd kv))
      with (member (S ind)).
    change (quote (fst (k, v)) ++ ":" :: " " :: stringify_value (S ind) (snd (k, v)))
      with (member (S ind) (k, v)).
    rewrite <- !app_assoc.
    rewrite parse_value_object, skip_ws_newline.
    unfold member at 1, quote at 1. cbn [fst app skip_ws is_ws expect Ascii.eqb Bool.eqb].
    fold (quote k). change ("034" :: quote_chars k ++ ["034"]) with (quote k).
    rewrite <- parse_members_skip_ws, skip_ws_newline, parse_members_skip_ws.
    cbn [app].
    rewrite (parse_members_stringify kvs Hkvs (k, v) ind rest f Hv).
    + reflexivity.
    + cbn [weight] in Hfuel. unfold members_weight. lia.
Qed.

Lemma separated_length (A : Type) (w : A -> nat) (text : A -> list ascii) n xs :
  Forall (fun x => w x <= length (text x)) xs ->
  list_sum (map (fun x => S (w x)) xs)
  <= length (concat (map (fun q => "," :: newline n ++ q) (map text xs))).
Proof.
  induction 1 as [ | x xs Hx _ IH ]; [ reflexivity | ].
  cbn [map concat list_sum fold_right]. rewrite length_app. cbn [length].
  rewrite length_app. unfold list_sum in IH. lia.
Qed.

Lemma bracket_length (A : Type) (w : A -> nat) (text : A -> list ascii) o c ind xs :
  Forall (fun x => w x <= length (text x)) xs ->
  S (list_sum (map (fun x => S (w x)) xs))
  <= length (bracket o c ind (map text xs)).
Proof.
  intros H. destruct H as [ | x xs Hx Hxs ]; [ cbn; lia | ].
  pose proof (separated_length A w text (S ind) xs Hxs) as Hsep.
  cbn [map bracket list_sum fold_right length]. unfold list_sum in Hsep.
  rewrite !length_app. cbn [length]. lia.
Qed.

Lemma weight_le_length j : forall ind, weight j <= length (stringify_value ind j).
Proof.
  induction j as [ | b | s | items IH | members IH ] using json_ind; intros ind;
    try (cbn [weight]; lia).
  - cbn [weight stringify_value]. apply bracket_length.
    eapply Forall_impl; [ exact IH | ]. intros x Hx. apply Hx.
  - cbn [weight stringify_value].
    apply (bracket_length _ (fun kv => weight (snd kv))
             (fun kv => quote (fst kv) ++ ":" :: " " :: stringify_value (S ind) (snd kv))).
    eapply Forall_impl; [ exact IH | ]. intros [k v] Hv. cbn [fst snd] in *.
    rewrite length_app. cbn [length]. specialize (Hv (S ind)). lia.
Qed.

Lemma parse_stringify j : parse (stringify j) = Ok j.
Proof.
  unfold parse, stringify. rewrite list_ascii_of_string_of_list_ascii.
  rewrite <- (app_nil_r (stringify_value 0 j)) at 2.
  rewrite parse_stringify_value; [ reflexivity | ].
  pose proof (weight_le_length j 0). lia.
Qed.

(** *** The fuel has no bearing on the result *)

Lemma skip_ws_length s : length (skip_ws s) <= length s.
Proof.
  induction s as [ | c r IH ]; [ reflexivity | ].
  cbn [skip_ws]. destruct (is_ws c); cbn [length]; lia.
Qed.

Lemma expect_length c s r : expect c s = Some r -> length s = S (length r).
Proof.
  destruct s as [ | c' s ]; [ discriminate | ]. cbn [expect].
  destruct (Ascii.eqb c c'); [ now intros [= ->] | discriminate ].
Qed.

Lemma strip_length w : forall s r, strip w s = Some r -> length r <= length s.
Proof.
  induction w as [ | c w IH ]; intros s r; cbn [strip].
  - now intros [= ->].
  - destruct (expect c s) as [ r' | ] eqn:E; [ | discriminate ].
    intros H. apply IH in H. apply expect_length in E. lia.
Qed.

Lemma parse_literal_length s j r :
  parse_literal s = Ok (j, r) -> length r < length s.
Proof.
  unfold parse_literal.
  destruct (strip ["n"; "u"; "l"; "l"] s) as [ r' | ] eqn:E1.
  { intros [= <- <-]. cbn [strip] in E1.
    destruct (expect "n" s) as [ s' | ] eqn:E; [ | discriminate ].
    apply expect_length in E. apply (strip_length ["u"; "l"; "l"]) in E1. lia. }
  destruct (strip ["t"; "r"; "u"; "e"] s) as [ r' | ] eqn:E2.
  { intros [= <- <-]. cbn [strip] in E2.
    destruct (expect "t" s) as [ s' | ] eqn:E; [ | discriminate ].
    apply expect_length in E. apply (strip_length ["r"; "u"; "e"]) in E2. lia. }
  destruct (strip ["f"; "a"; "l"; "s"; "e"] s) as [ r' | ] eqn:E3.
  { intros [= <- <-]. cbn [strip] in E3.
    destruct (expect "f" s) as [ s' | ] eqn:E; [ | discriminate ].
    apply expect_length in E. apply (strip_length ["a"; "l"; "s"; "e"]) in E3. lia. }
  destruct s as [ | c s ]; [ discriminate | ].
  destruct (starts_number c); discriminate.
Qed.

Lemma parse_string_length n :
  forall s str r, length s <= n -> parse_string s = Ok (str, r) -> length r < length s.
Proof.
  induction n as [ | n IH ]; intros s str r Hn;
    (destruct s as [ | c s ]; [ discriminate | ]); cbn [length] in Hn; [ lia | ].
  cbn [parse_string].
  destruct (Ascii.eqb c "034"); [ intros [= <- <-]; cbn [length]; lia | ].
  destruct (Ascii.eqb c "\").
  - destruct s as [ | e s ]; [ discriminate | ].
    destruct (Ascii.eqb e "u").
    + destruct s as [ | a [ | b [ | c' [ | d s ] ] ] ]; try discriminate.
      destruct (unicode_escape a b c' d); [ | discriminate ]. cbn [bind].
      destruct (parse_string s) as [ [str' r'] | ] eqn:E; [ | discriminate ].
      cbn [bind]. intros [= <- <-].
      apply IH in E; cbn [length] in *; lia.
    + destruct (escape e); [ | discriminate ]. cbn [bind].
      destruct (parse_string s) as [ [str' r'] | ] eqn:E; [ | discriminate ].
      cbn [bind]. intros [= <- <-].
      apply IH in E; cbn [length] in *; lia.
  - destruct (N_of_ascii c <? 32)%N; [ discriminate | ].
    destruct (parse_string s) as [ [str' r'] | ] eqn:E; [ | discriminate ].
    cbn [bind]. intros [= <- <-].
    apply IH in E; cbn [length] in *; lia.
Qed.

(** A successful parse consumes at least one character. *)
Lemma parse_consumes fuel :
  (forall s j r, parse_value fuel s = Ok (j, r) -> length r < length s)
  /\ (forall s l r, parse_elements fuel s = Ok (l, r) -> length r < length s)
  /\ (forall s l r, parse_members fuel s = Ok (l, r) -> length r < length s).
Proof.
  induction fuel as [ | f (IHv & IHe & IHm) ]; [ repeat split; discriminate | ].
  repeat split.
  - intros s j r. cbn [parse_value]. cbn zeta.
    pose proof (skip_ws_length s) as Hs.
    destruct (expect "[" (skip_ws s)) as [ s1 | ] eqn:E1.
    { apply expect_length in E1. pose proof (skip_ws_length s1) as Hs1.
      destruct (expect "]" (skip_ws s1)) as [ s2 | ] eqn:E2.
      - apply expect_length in E2. intros [= <- <-]. lia.
      - destruct (parse_elements f s1) as [ [l r'] | ] eqn:E; [ | discriminate ].
        cbn [bind]. intros [= <- <-]. apply IHe in E. lia. }
    destruct (expect "{" (skip_ws s)) as [ s1 | ] eqn:E2.
    { apply expect_length in E2. pose proof (skip_ws_length s1) as Hs1.
      destruct (expect "}" (skip_ws s1)) as [ s2 | ] eqn:E3.
      - apply expect_length in E3. intros [= <- <-]. lia.
      - destruct (parse_members f s1) as [ [l r'] | ] eqn:E; [ | discriminate ].
        cbn [bind]. intros [= <- <-]. apply IHm in E. lia. }
    destruct (expect "034" (skip_ws s)) as [ s1 | ] eqn:E3.
    { apply expect_length in E3.
      destruct (parse_string s1) as [ [str r'] | ] eqn:E; [ | discriminate ].
      cbn [bind]. intros [= <- <-].
      apply (parse_string_length (length s1)) in E; lia. }
    intros H. apply parse_literal_length in H. lia.
  - intros s l r. cbn [parse_elements].
    destruct (parse_value f s) as [ [x r1] | ] eqn:E; [ | discriminate ].
    cbn [bind]. cbn zeta. apply IHv in E. pose proof (skip_ws_length r1) as Hr1.
    destruct (expect "," (skip_ws r1)) as [ r2 | ] eqn:E1.
    { apply expect_length in E1.
      destruct (parse_elements f r2) as [ [xs r3] | ] eqn:E2; [ | discriminate ].
      cbn [bind]. intros [= <- <-]. apply IHe in E2. lia. }
    destruct (expect "]" (skip_ws r1)) as [ r2 | ] eqn:E2; [ | discriminate ].
    apply expect_length in E2. intros [= <- <-]. lia.
  - intros s l r. cbn [parse_members]. pose proof (skip_ws_length s) as Hs.
    destruct (expect "034" (skip_ws s)) as [ s1 | ] eqn:E1; [ | discriminate ].
    apply expect_length in E1.
    destruct (parse_string s1) as [ [k r1] | ] eqn:Ek; [ | discriminate ].
    cbn [bind]. apply (parse_string_length (length s1)) in Ek; [ | lia ].
    pose proof (skip_ws_length r1) as Hr1.
    destruct (expect ":" (skip_ws r1)) as [ r2 | ] eqn:E2; [ | discriminate ].
    apply expect_length in E2.
    destruct (parse_value f r2) as [ [v r3] | ] eqn:Ev; [ | discriminate ].
    cbn [bind]. cbn zeta. apply IHv in Ev. pose proof (skip_ws_length r3) as Hr3.
    destruct (expect "," (skip_ws r3)) as [ r4 | ] eqn:E3.
    { apply expect_length in E3.
      destruct (parse_members f r4) as [ [kvs r5] | ] eqn:E4; [ | discriminate ].
      cbn [bind]. intros [= <- <-]. apply IHm in E4. lia. }
    destruct (expect "}" (skip_ws r3)) as [ r4 | ] eqn:E4; [ | discriminate ].
    apply expect_length in E4. intros [= <- <-]. lia.
Qed.

(** Above twice the length of the input, any two amounts of fuel give the
    same result: the exhaustion branch is never taken. *)
Lemma fuel_irrelevant f1 :
  (forall f2 s, 2 * length s < f1 -> 2 * length s < f2 ->
     parse_value f1 s = parse_value f2 s)
  /\ (forall f2 s, 2 * length s + 1 < f1 -> 2 * length s + 1 < f2 ->
        parse_elements f1 s = parse_elements f2 s)
  /\ (forall f2 s, 2 * length s + 1 < f1 -> 2 * length s + 1 < f2 ->
        parse_members f1 s = parse_members f2 s).
Proof.
  induction f1 as [ | f1 (IHv & IHe & IHm) ]; [ repeat split; intros; lia | ].
  repeat split; intros [ | f2 ] s H1 H2; try lia.
  - cbn [parse_value]. cbn zeta. pose proof (skip_ws_length s) as Hs.
    destruct (expect "[" (skip_ws s)) as [ s1 | ] eqn:E1.
    { apply expect_length in E1.
      destruct (expect "]" (skip_ws s1)); [ reflexivity | ].
      rewrite (IHe f2 s1) by lia. reflexivity. }
    destruct (expect "{" (skip_ws s)) as [ s1 | ] eqn:E2; [ | reflexivity ].
    apply expect_length in E2.
    destruct (expect "}" (skip_ws s1)); [ reflexivity | ].
    rewrite (IHm f2 s1) by lia. reflexivity.
  - cbn [parse_elements]. rewrite (IHv f2 s) by lia.
    destruct (parse_value f2 s) as [ [x r1] | ] eqn:E; [ | reflexivity ].
    cbn [bind]. cbn zeta. apply parse_consumes in E.
    pose proof (skip_ws_length r1) as Hr1.
    destruct (expect "," (skip_ws r1)) as [ r2 | ] eqn:E1; [ | reflexivity ].
    apply expect_length in E1. rewrite (IHe f2 r2) by lia. reflexivity.
  - cbn [parse_members]. pose proof (skip_ws_length s) as Hs.
    destruct (expect "034" (skip_ws s)) as [ s1 | ] eqn:E1; [ | reflexivity ].
    apply expect_length in E1.
    destruct (parse_string s1) as [ [k r1] | ] eqn:Ek; [ | reflexivity ].
    cbn [bind]. apply (parse_string_length (length s1)) in Ek; [ | lia ].
    pose proof (skip_ws_length r1) as Hr1.
    destruct (expect ":" (skip_ws r1)) as [ r2 | ] eqn:E2; [ | reflexivity ].
    apply expect_length in E2. rewrite (IHv f2 r2) by lia.
    destruct (parse_value f2 r2) as [ [v r3] | ] eqn:Ev; [ | reflexivity ].
    cbn [bind]. cbn zeta. apply parse_consumes in Ev.
    pose proof (skip_ws_length r3) as Hr3.
    destruct (expect "," (skip_ws r3)) as [ r4 | ] eqn:E3; [ | reflexivity ].
    apply expect_length in E3. rewrite (IHm f2 r4) by lia. reflexivity.
Qed.

End JSONFacts.

Module DocumentFacts.
Import JSON Document Measures.

Lemma strings_of_strings ps : strings (map JString ps) = Ok ps.
Proof.
  induction ps as [ | p ps IH ]; [ reflexivity | ].
  cbn [map strings]. rewrite IH. reflexivity.
Qed.

Lemma property_of_property (A : Type) name (value : json -> result A) enc o :
  (forall a, value (enc a) = Ok a) ->
  property name value (of_property name enc o) = Ok o.
Proof.
  intros Hval. destruct o as [ a | ]; [ | reflexivity ].
  cbn [of_property property fold_left bind fst snd].
  rewrite String.eqb_refl, Hval. reflexivity.
Qed.

Lemma define_all_map_to_list (A : Type) (m : gmap string A) :
  define_all (map_to_list m) ∅ = m.
Proof.
  unfold define_all. rewrite <- fold_left_rev_right.
  change (list_to_map (rev (map_to_list m)) = m).
  rewrite <- (list_to_map_to_list m) at 2. symmetry.
  apply list_to_map_proper.
  - apply NoDup_fst_map_to_list.
  - apply Permutation_rev.
Qed.

Lemma dictionary_members (A : Type) (value : json -> result A) enc l m :
  (forall a, value (enc a) = Ok a) ->
  fold_left
    (fun acc kv => do m <- acc; do a <- value (snd kv); Ok (<[fst kv := a]> m))
    (map (fun kv => (fst kv, enc (snd kv))) l) (Ok m)
  = Ok (define_all l m).
Proof.
  intros Hval. revert m. induction l as [ | [k a] l IH ]; intros m; [ reflexivity | ].
  cbn [map fold_left bind fst snd define_all]. rewrite Hval. cbn [bind]. apply IH.
Qed.

Lemma dictionary_of_dictionary (A : Type) (value : json -> result A) enc m :
  (forall a, value (enc a) = Ok a) ->
  dictionary value (of_dictionary enc m) = Ok m.
Proof.
  intros Hval. unfold dictionary, of_dictionary.
  rewrite dictionary_members by exact Hval.
  now rewrite define_all_map_to_list.
Qed.

Lemma user_record_of_user_record user :
  user_record (of_user_record user) = Ok user.
Proof.
  unfold user_record, of_user_record.
  rewrite property_of_property.
  - now destruct user.
  - intros ps. apply strings_of_strings.
Qed.

Lemma thread_record_of_thread_record thread :
  thread_record (of_thread_record thread) = Ok thread.
Proof.
  unfold thread_record, of_thread_record.
  rewrite property_of_property.
  - now destruct thread.
  - intros us. apply dictionary_of_dictionary, user_record_of_user_record.
Qed.

Lemma of_json_to_json d : of_json (to_json d) = Ok d.
Proof. apply dictionary_of_dictionary, thread_record_of_thread_record. Qed.

End DocumentFacts.

Module StoreFacts.
Import PermissionUtil Measures.

Lemma stringify_not_empty j : JSON.stringify j <> EmptyString.
Proof.
  unfold JSON.stringify.
  destruct j as [ | [] | s | [ | x xs ] | [ | kv kvs ] ]; discriminate.
Qed.

(** What was saved is what is loaded next. *)
Lemma load_save d : getPermissionSettings (savePermissionSettings d) = Ok d.
Proof.
  unfold getPermissionSettings, savePermissionSettings.
  destruct (String.eqb_spec (JSON.stringify (Document.to_json d)) EmptyString) as [ E | _ ].
  - now apply stringify_not_empty in E.
  - rewrite JSONFacts.parse_stringify. apply DocumentFacts.of_json_to_json.
Qed.


Lemma includes_spec l x : includes l x = true <-> x ∈ l.
Proof.
  induction l as [ | y l IH ]; cbn [includes].
  - split; [ discriminate | intros H; inversion H ].
  - destruct (String.eqb_spec y x) as [ -> | Hne ].
    + split; [ intros _; left | reflexivity ].
    + rewrite IH. split; [ intros H; now right | ].
      intros H. inversion H; subst; [ contradiction | assumption ].
Qed.

Lemma includes_false l x : includes l x = false <-> x ∉ l.
Proof.
  rewrite <- includes_spec. destruct (includes l x); split; congruence.
Qed.

Lemma count_held_bounds perms commands start :
  count_held perms commands start <= start + length commands
  /\ (count_held perms commands start = start + length commands
      <-> forall command, command ∈ commands -> command ∈ perms).
Proof.
  revert start. induction commands as [ | c commands IH ]; intros start.
  - cbn. split; [ lia | ]. split; [ intros _ c Hc; inversion Hc | lia ].
  - cbn [count_held fold_left length].
    destruct (IH (start + (if includes perms c then 1 else 0))) as [Hle Hiff].
    fold (count_held perms commands (start + (if includes perms c then 1 else 0))).
    destruct (includes perms c) eqn:Hc.
    + apply includes_spec in Hc. split; [ lia | ].
      replace (start + S (length commands)) with (start + 1 + length commands) by lia.
      rewrite Hiff. split.
      * intros H x Hx. inversion Hx; subst; auto.
      * intros H x Hx. apply H. now right.
    + apply includes_false in Hc. rewrite Nat.add_0_r in *. split; [ lia | ]. split.
      * intros H. lia.
      * intros H. exfalso. apply Hc, H. left.
Qed.

Lemma count_held_all perms commands :
  Nat.eqb (count_held perms commands 0) (length commands) = true
  <-> forall command, command ∈ commands -> command ∈ perms.
Proof.
  rewrite Nat.eqb_eq. apply (count_held_bounds perms commands 0).
Qed.

Lemma filter_remaining commands perms :
  List.filter (fun command => negb (includes commands command)) perms
  = remaining perms commands.
Proof.
  unfold remaining. induction perms as [ | p perms IH ]; [ reflexivity | ].
  cbn [List.filter]. rewrite filter_cons.
  destruct (includes commands p) eqn:Hp; cbn [negb]; case_decide as Hin.
  - apply includes_spec in Hp. contradiction.
  - exact IH.
  - now rewrite IH.
  - apply includes_false in Hp. contradiction.
Qed.

Lemma remove_missing file d threadID userID commands :
  getPermissionSettings file = Ok d ->
  (user ← user_record_of d threadID userID; permissions user) = None ->
  removePermissionFromUserInThread file threadID userID commands = Ok (false, file).
Proof.
  intros Hload H. unfold removePermissionFromUserInThread. rewrite Hload. cbn [bind].
  unfold user_record_of in H.
  destruct (d !! threadID) as [ thread | ]; cbn in H; [ | reflexivity ].
  destruct (users thread) as [ threadUsers | ]; cbn in H; [ | reflexivity ].
  destruct (threadUsers !! userID) as [ user | ]; cbn in H; [ | reflexivity ].
  now rewrite H.
Qed.

Lemma remove_empty file d threadID userID commands user :
  getPermissionSettings file = Ok d ->
  user_record_of d threadID userID = Some user ->
  permissions user = Some [] ->
  removePermissionFromUserInThread file threadID userID commands = Ok (true, file).
Proof.
  intros Hload Huser Hperms. unfold removePermissionFromUserInThread.
  rewrite Hload. cbn [bind]. unfold user_record_of in Huser.
  destruct (d !! threadID) as [ thread | ]; cbn in Huser; [ | discriminate ].
  destruct (users thread) as [ threadUsers | ]; cbn in Huser; [ | discriminate ].
  rewrite Huser, Hperms. reflexivity.
Qed.

Lemma remove_filters file d threadID userID commands thread threadUsers user perms :
  getPermissionSettings file = Ok d ->
  d !! threadID = Some thread ->
  users thread = Some threadUsers ->
  threadUsers !! userID = Some user ->
  permissions user = Some perms ->
  perms <> [] ->
  removePermissionFromUserInThread file threadID userID commands
  = Ok (true,
        savePermissionSettings
          (pruned d threadID userID threadUsers (remaining perms commands))).
Proof.
  intros Hload Hthread Husers Huser Hperms Hne.
  unfold removePermissionFromUserInThread.
  rewrite Hload. cbn [bind]. rewrite Hthread, Husers, Huser, Hperms.
  destruct perms as [ | p perms ]; [ contradiction | ]. cbn [length Nat.eqb].
  rewrite filter_remaining. unfold pruned.
  destruct (remaining (p :: perms) commands) as [ | q left ]; cbn [length Nat.eqb].
  - case_decide as Hempty.
    + rewrite Hempty, map_size_empty. reflexivity.
    + destruct (size (delete userID threadUsers)) eqn:Hsize; [ | reflexivity ].
      apply map_size_empty_iff in Hsize. contradiction.
  - destruct (size (<[userID := {| permissions := Some (q :: left) |}]> threadUsers))
      eqn:Hsize; [ | reflexivity ].
    apply map_size_empty_iff in Hsize. now apply insert_non_empty in Hsize.
Qed.

Lemma user_record_of_pruned_nil d threadID userID threadUsers :
  user_record_of (pruned d threadID userID threadUsers []) threadID userID = None.
Proof.
  unfold user_record_of, pruned. case_decide.
  - now rewrite lookup_delete_eq.
  - rewrite lookup_insert_eq. cbn. now rewrite lookup_delete_eq.
Qed.

Lemma remaining_nil perms commands :
  (forall command, command ∈ perms -> command ∈ commands) ->
  remaining perms commands = [].
Proof.
  intros H. unfold remaining. induction perms as [ | p perms IH ]; [ reflexivity | ].
  rewrite filter_cons. case_decide as Hin.
  - exfalso. apply Hin, H. left.
  - apply IH. intros c Hc. apply H. now right.
Qed.

Lemma remaining_all perms commands :
  (forall command, command ∈ commands -> command ∉ perms) ->
  remaining perms commands = perms.
Proof.
  intros H. unfold remaining. induction perms as [ | p perms IH ]; [ reflexivity | ].
  rewrite filter_cons. case_decide as Hin.
  - f_equal. apply IH. intros c Hc Hp. apply (H c Hc). now right.
  - exfalso. apply (H p); [ | left ]. destruct (decide (p ∈ commands)); tauto.
Qed.

Lemma pruned_same d threadID userID thread threadUsers user perms :
  d !! threadID = Some thread ->
  users thread = Some threadUsers ->
  threadUsers !! userID = Some user ->
  permissions user = Some perms ->
  perms <> [] ->
  pruned d threadID userID threadUsers perms = d.
Proof.
  intros Hthread Husers Huser Hperms Hne. unfold pruned.
  destruct perms as [ | p perms ]; [ contradiction | ].
  destruct user as [ o ], thread as [ us ]. cbn in Husers, Hperms. subst.
  now rewrite (insert_id threadUsers), insert_id.
Qed.





Section Registry.

Variable getThreadAdmins : string -> ThreadAdmins.

Lemma privileged_spec threadID userID :
  (let threadAdmins := getThreadAdmins threadID in
   includes (if hasError threadAdmins then [] else admins threadAdmins) userID
   || bool_decide (botOwner threadAdmins = Some userID)) = true
  <-> privileged getThreadAdmins threadID userID.
Proof.
  unfold privileged. cbn zeta.
  rewrite orb_true_iff, bool_decide_eq_true, includes_spec.
  destruct (hasError (getThreadAdmins threadID)); split.
  - intros [ H | H ]; [ inversion H | now right ].
  - intros [ [H _] | H ]; [ discriminate | now right ].
  - intros [ H | H ]; [ now left | now right ].
  - intros [ [_ H] | H ]; [ now left | now right ].
Qed.

Lemma userHasPermission_true file d threadID userID commands :
  getPermissionSettings file = Ok d ->
  userHasPermission getThreadAdmins file threadID userID commands = Ok true
  <-> privileged getThreadAdmins threadID userID
      \/ exists user, user_record_of d threadID userID = Some user
                      /\ holds_all user commands.
Proof.
  intros Hload. unfold userHasPermission. rewrite Hload. cbn [bind].
  pose proof (privileged_spec threadID userID) as Hpriv. cbn zeta in Hpriv |- *.
  destruct (includes _ userID || bool_decide _) eqn:Hp.
  - split; [ intros _; left; now apply Hpriv | reflexivity ].
  - assert (Hnot : ~ privileged getThreadAdmins threadID userID).
    { intros H. apply Hpriv in H. discriminate. }
    unfold user_record_of, holds_all.
    destruct (d !! threadID) as [ thread | ]; cbn;
      [ | split; [ discriminate | intros [ H | (user & H & _) ]; [ tauto | discriminate ] ] ].
    destruct (users thread) as [ threadUsers | ]; cbn;
      [ | split; [ discriminate | intros [ H | (user & H & _) ]; [ tauto | discriminate ] ] ].
    destruct (threadUsers !! userID) as [ user | ]; cbn;
      [ | split; [ discriminate | intros [ H | (user & H & _) ]; [ tauto | discriminate ] ] ].
    destruct (permissions user) as [ perms | ] eqn:Hperms.
    + fold (count_held perms commands 0). split.
      * intros H. right. exists user. split; [ reflexivity | ].
        assert (Hall : Nat.eqb (count_held perms commands 0) (length commands) = true)
          by congruence.
        rewrite count_held_all in Hall. intros c Hc. exists perms. rewrite Hperms. auto.
      * intros [ H | (user' & Huser & Hall) ]; [ tauto | ].
        injection Huser as <-. f_equal. apply count_held_all. intros c Hc.
        destruct (Hall c Hc) as (perms' & Hperms' & Hin). congruence.
    + destruct commands as [ | c commands ].
      * split; [ | reflexivity ]. intros _. right. exists user.
        split; [ reflexivity | ]. intros c Hc. inversion Hc.
      * split; [ discriminate | ].
        intros [ H | (user' & Huser & Hall) ]; [ tauto | ].
        injection Huser as <-. destruct (Hall c) as (perms & Hperms' & _); [ left | ].
        congruence.
Qed.



Lemma add_held file threadID userID commands :
  userHasPermission getThreadAdmins file threadID userID commands = Ok true ->
  addPermissionToUserInThread getThreadAdmins file threadID userID commands
  = Ok (false, file).
Proof. intros H. unfold addPermissionToUserInThread. now rewrite H. Qed.

Lemma add_throws file threadID userID commands e :
  userHasPermission getThreadAdmins file threadID userID commands = Err e ->
  addPermissionToUserInThread getThreadAdmins file threadID userID commands = Err e.
Proof. intros H. unfold addPermissionToUserInThread. now rewrite H. Qed.

Lemma add_grants file d threadID userID commands :
  getPermissionSettings file = Ok d ->
  userHasPermission getThreadAdmins file threadID userID commands = Ok false ->
  addPermissionToUserInThread getThreadAdmins file threadID userID commands
  = Ok (true, savePermissionSettings (granted d threadID userID commands)).
Proof.
  intros Hload H. unfold addPermissionToUserInThread. rewrite H, Hload. cbn [bind].
  unfold granted, permissions_of, users_of, user_record_of.
  destruct (d !! threadID) as [ thread | ]; cbn; [ | reflexivity ].
  destruct (users thread) as [ threadUsers | ]; cbn; [ | reflexivity ].
  destruct (threadUsers !! userID) as [ user | ]; reflexivity.
Qed.

Lemma user_record_of_granted d threadID userID commands :
  user_record_of (granted d threadID userID commands) threadID userID
  = Some {| permissions := Some (permissions_of d threadID userID ++ commands) |}.
Proof.
  unfold user_record_of, granted. rewrite lookup_insert_eq. cbn.
  now rewrite lookup_insert_eq.
Qed.

Lemma load_of_userHasPermission file threadID userID commands b :
  userHasPermission getThreadAdmins file threadID userID commands = Ok b ->
  exists d, getPermissionSettings file = Ok d.
Proof.
  unfold userHasPermission.
  destruct (getPermissionSettings file) as [ d | e ]; [ eauto | discriminate ].
Qed.

Lemma add_cases file threadID userID commands b file' :
  addPermissionToUserInThread getThreadAdmins file threadID userID commands
  = Ok (b, file') ->
  exists d, getPermissionSettings file = Ok d
    /\ ((b = false /\ file' = file
         /\ userHasPermission getThreadAdmins file threadID userID commands = Ok true)
        \/ (b = true
            /\ file' = savePermissionSettings (granted d threadID userID commands)
            /\ userHasPermission getThreadAdmins file threadID userID commands
               = Ok false)).
Proof.
  intros Hadd.
  destruct (userHasPermission getThreadAdmins file threadID userID commands)
    as [ [ | ] | e ] eqn:Hheld.
  - destruct (load_of_userHasPermission _ _ _ _ _ Hheld) as [d Hload].
    rewrite add_held in Hadd by exact Hheld. injection Hadd as <- <-.
    exists d. split; [ exact Hload | left; auto ].
  - destruct (load_of_userHasPermission _ _ _ _ _ Hheld) as [d Hload].
    rewrite (add_grants _ d) in Hadd by assumption. injection Hadd as <- <-.
    exists d. split; [ exact Hload | right; auto ].
  - rewrite (add_throws _ _ _ _ e) in Hadd by exact Hheld. discriminate.
Qed.



End Registry.

End StoreFacts.

Module ReachableFacts.
Import PermissionUtil StoreFacts.



End ReachableFacts.

Module CommandFacts.
Import PermissionCommand.

Lemma everyone_returns threadInfo persons :
  participants_known threadInfo ->
  exists persons', everyone threadInfo persons = Ok persons'.
Proof.
  unfold participants_known, everyone.
  generalize (participantIDs threadInfo) as ids. intros ids. revert persons.
  induction ids as [ | pid ids IH ]; intros persons Hknown; [ now eexists | ].
  cbn [fold_left bind].
  destruct (List.find (fun uinfo => String.eqb (id uinfo) pid) (userInfo threadInfo))
    as [ uinfo | ] eqn:Hfind.
  - apply IH. intros p Hp. apply Hknown. now right.
  - exfalso. destruct (Hknown pid) as (uinfo & Hin & Hid); [ left | ].
    apply list_elem_of_In in Hin.
    pose proof (find_none _ _ Hfind uinfo Hin) as Hno. cbn in Hno.
    rewrite Hid, String.eqb_refl in Hno. discriminate.
Qed.

Lemma no_command_matches commandsToGive (commands : list CommandOptions) :
  (forall command, command ∈ commands -> name command ∉ commandsToGive) ->
  existsb (fun command => includes commandsToGive (name command)) commands = false.
Proof.
  intros H. apply not_true_is_false. intros Hex.
  apply existsb_exists in Hex as (command & Hin & Hinc).
  apply list_elem_of_In in Hin. apply StoreFacts.includes_spec in Hinc.
  exact (H command Hin Hinc).
Qed.

Section Collaborators.

Variable getThreadAdmins : string -> ThreadAdmins.
Variable getThreadInfo : string -> ThreadInfo.

Lemma grant_commands_unknown event commandsToGive commands persons w :
  (forall command, command ∈ commands -> name command ∉ commandsToGive) ->
  grant_commands getThreadAdmins event commandsToGive commands persons w
  = Ok (sendMessage
          (Text ("⚠️ Unknown command(s): '" +:+ join "," commandsToGive +:+ "'.")) w).
Proof. intros H. unfold grant_commands. now rewrite no_command_matches. Qed.

Lemma revoke_commands_unknown event commandsToRevoke commands persons w :
  (forall command, command ∈ commands -> name command ∉ commandsToRevoke) ->
  revoke_commands event commandsToRevoke commands persons w
  = Ok (sendMessage
          (Text ("⚠️Unknown command(s): '" +:+ join "," commandsToRevoke +:+ "'.")) w).
Proof. intros H. unfold revoke_commands. now rewrite no_command_matches. Qed.



End Collaborators.

End CommandFacts.

(** * The claims *)

Import PermissionUtil StoreFacts.







(** C3. [removePermissionFromUserInThread] returns false and writes nothing
    when the Thread Record, its [users] mapping, the User Record or its
    [permissions] collection is absent; it returns true and writes nothing
    when the collection is empty; otherwise it saves the document in which
    every occurrence of the requested commands is removed from the collection
    and the emptied User Record, [users] mapping and Thread Record are
    removed in this order, and returns true.  Removing everything a user
    holds leaves no User Record of the user. *)
Theorem removePermissionFromUserInThread_spec file d threadID userID commands :
  getPermissionSettings file = Ok d ->
  (d !! threadID = None
   \/ (exists thread, d !! threadID = Some thread /\ users thread = None)
   \/ (exists thread threadUsers,
         d !! threadID = Some thread /\ users thread = Some threadUsers
         /\ threadUsers !! userID = None)
   \/ (exists thread threadUsers user,
         d !! threadID = Some thread /\ users thread = Some threadUsers
         /\ threadUsers !! userID = Some user /\ permissions user = None) ->
   removePermissionFromUserInThread file threadID userID commands = Ok (false, file))
  /\ (forall user,
        user_record_of d threadID userID = Some user ->
        permissions user = Some [] ->
        removePermissionFromUserInThread file threadID userID commands = Ok (true, file))
  /\ (forall thread threadUsers user perms,
        d !! threadID = Some thread ->
        users thread = Some threadUsers ->
        threadUsers !! userID = Some user ->
        permissions user = Some perms ->
        perms <> [] ->
        let d' := pruned d threadID userID threadUsers (remaining perms commands) in
        removePermissionFromUserInThread file threadID userID commands
        = Ok (true, savePermissionSettings d')
        /\ getPermissionSettings (savePermissionSettings d') = Ok d'
        /\ (forall command,
              command ∈ remaining perms commands
              <-> command ∈ perms /\ command ∉ commands)
        /\ ((forall command, command ∈ perms -> command ∈ commands) ->
            user_record_of d' threadID userID = None)).
Proof.
  intros Hload. split; [ | split ].
  - intros Habsent. apply (remove_missing file d); [ exact Hload | ].
    unfold user_record_of.
    destruct Habsent as [ -> | [ (thread & -> & Husers)
                               | [ (thread & threadUsers & -> & Husers & Huser)
                                 | (thread & threadUsers & user & -> & Husers & Huser & Hperms)
                                 ] ] ]; cbn; [ reflexivity | | | ].
    + now rewrite Husers.
    + rewrite Husers. cbn. now rewrite Huser.
    + rewrite Husers. cbn. rewrite Huser. exact Hperms.
  - intros user Huser Hperms. now apply (remove_empty file d _ _ _ user).
  - intros thread threadUsers user perms Hthread Husers Huser Hperms Hne d'.
    split; [ | split; [ | split ] ].
    + now apply (remove_filters file d _ _ _ thread threadUsers user perms).
    + apply load_save.
    + intros c. unfold remaining. rewrite list_elem_of_filter. tauto.
    + intros Hall. unfold d'. rewrite remaining_nil by exact Hall.
      apply user_record_of_pruned_nil.
Qed.

Lemma removePermissionFromUserInThread_spec_witness :
  getPermissionSettings sample_file = Ok sample_document
  /\ removePermissionFromUserInThread sample_file "T1" "U1" ["meme"%string]
     = Ok (true, savePermissionSettings ∅).
Proof.
  assert (Hload : getPermissionSettings sample_file = Ok sample_document)
    by (vm_compute; reflexivity).
  split; [ exact Hload | ].
  pose proof (removePermissionFromUserInThread_spec sample_file sample_document
                "T1" "U1" ["meme"%string] Hload) as (_ & _ & H).
  specialize (H {| users := Some {[ "U1"%string := {| permissions := Some ["meme"%string] |} ]} |}
                {[ "U1"%string := {| permissions := Some ["meme"%string] |} ]}
                {| permissions := Some ["meme"%string] |}
                ["meme"%string]).
  destruct H as (H & _); [ vm_compute; reflexivity .. | discriminate | ].
  exact H.
Defined.



(** C7. Removing commands none of which the user holds leaves the document,
    and with it the permissions collection of the user, as it was, and
    returns true, provided the Thread Record, the [users] mapping, the User
    Record and the [permissions] collection exist. *)
Theorem remove_unheld_keeps_permissions
  file d threadID userID commands thread threadUsers user perms :
  getPermissionSettings file = Ok d ->
  d !! threadID = Some thread ->
  users thread = Some threadUsers ->
  threadUsers !! userID = Some user ->
  permissions user = Some perms ->
  (forall command, command ∈ commands -> command ∉ perms) ->
  exists file',
    removePermissionFromUserInThread file threadID userID commands = Ok (true, file')
    /\ getPermissionSettings file' = Ok d
    /\ (user' ← user_record_of d threadID userID; permissions user') = Some perms.
Proof.
  intros Hload Hthread Husers Huser Hperms Hnone.
  assert (Hrecord : user_record_of d threadID userID = Some user).
  { unfold user_record_of. rewrite Hthread. cbn. rewrite Husers. exact Huser. }
  destruct perms as [ | p perms ].
  - exists file. rewrite (remove_empty file d _ _ _ user) by assumption.
    rewrite Hrecord. auto.
  - eexists. rewrite (remove_filters file d _ _ _ thread threadUsers user (p :: perms))
      by (assumption || discriminate).
    rewrite remaining_all by exact Hnone.
    rewrite (pruned_same d _ _ thread threadUsers user (p :: perms))
      by (assumption || discriminate).
    rewrite Hrecord. split; [ reflexivity | ]. split; [ apply load_save | exact Hperms ].
Qed.

Lemma remove_unheld_keeps_permissions_witness :
  getPermissionSettings sample_file = Ok sample_document
  /\ exists file',
       removePermissionFromUserInThread sample_file "T1" "U1" ["ban"%string]
       = Ok (true, file')
       /\ getPermissionSettings file' = Ok sample_document
       /\ (user' ← user_record_of sample_document "T1" "U1"; permissions user')
          = Some ["meme"%string].
Proof.
  assert (Hload : getPermissionSettings sample_file = Ok sample_document)
    by (vm_compute; reflexivity).
  split; [ exact Hload | ].
  apply (remove_unheld_keeps_permissions sample_file sample_document
           "T1" "U1" ["ban"%string]
           {| users := Some {[ "U1"%string := {| permissions := Some ["meme"%string] |} ]} |}
           {[ "U1"%string := {| permissions := Some ["meme"%string] |} ]}
           {| permissions := Some ["meme"%string] |}
           ["meme"%string] Hload);
    try (vm_compute; reflexivity).
  intros c Hc Hin. apply list_elem_of_singleton in Hc, Hin. subst. discriminate.
Defined.

(** C8. Saving what was loaded is a fixed point of the artifact: the text
    written loads to the document that was read, and writes itself again;
    an empty artifact loads as the empty document. *)
Theorem save_load_fixed_point :
  (forall file d,
     getPermissionSettings file = Ok d ->
     getPermissionSettings (savePermissionSettings d) = Ok d
     /\ forall d',
          getPermissionSettings (savePermissionSettings d) = Ok d' ->
          savePermissionSettings d' = savePermissionSettings d)
  /\ getPermissionSettings EmptyString = Ok ∅.
Proof.
  split; [ | reflexivity ].
  intros file d _. split; [ apply load_save | ].
  intros d'. rewrite load_save. now intros [= <-].
Qed.

Lemma save_load_fixed_point_witness :
  getPermissionSettings sample_file = Ok sample_document
  /\ getPermissionSettings (savePermissionSettings sample_document) = Ok sample_document.
Proof.
  assert (Hload : getPermissionSettings sample_file = Ok sample_document)
    by (vm_compute; reflexivity).
  split; [ exact Hload | ].
  exact (proj1 (proj1 save_load_fixed_point sample_file sample_document Hload)).
Defined.





(** C5, at a message that separates the commands by a comma and a space,
    as the usage text writes them: [ban] is for administrators only, yet it
    is granted, because the entries are trimmed after the filter that drops
    the administrator-only commands and not before. *)
Theorem admin_only_command_granted_untrimmed :
  target_commands "meme, ban " sample_commands = ["meme"%string; " ban"%string]
  /\ PermissionCommand.applied (target_commands "meme, ban " sample_commands)
       sample_commands
     = ["meme"%string; "ban"%string]
  /\ (do w <- PermissionCommand.execute sample_registry sample_thread_info
                ["permission grant meme, ban @Bob"%string; "grant"%string;
                 "meme, ban "%string; "@Bob"%string]
                sample_event sample_commands empty_world;
      do d <- getPermissionSettings (store w);
      Ok (user_record_of d "T1" "U1"))
     = Ok (Some {| permissions := Some ["meme"%string; "ban"%string] |}).
Proof. repeat split; vm_compute; reflexivity. Qed.



(** * Further properties of the store *)

Module StoreLaws.
Import PermissionUtil StoreFacts Measures.

Lemma remove_loads file threadID userID commands b file' :
  removePermissionFromUserInThread file threadID userID commands = Ok (b, file') ->
  exists d, getPermissionSettings file = Ok d.
Proof.
  unfold removePermissionFromUserInThread.
  destruct (getPermissionSettings file) as [ d | e ]; [ eauto | discriminate ].
Qed.

Lemma user_record_of_path d threadID userID thread threadUsers :
  d !! threadID = Some thread ->
  users thread = Some threadUsers ->
  user_record_of d threadID userID = threadUsers !! userID.
Proof. intros Hthread Husers. unfold user_record_of. rewrite Hthread. cbn. now rewrite Husers. Qed.

Lemma user_record_path d threadID userID user :
  user_record_of d threadID userID = Some user ->
  exists thread threadUsers,
    d !! threadID = Some thread /\ users thread = Some threadUsers
    /\ threadUsers !! userID = Some user.
Proof.
  unfold user_record_of.
  destruct (d !! threadID) as [ thread | ]; cbn; [ | discriminate ].
  destruct (users thread) as [ threadUsers | ] eqn:Husers; cbn; [ | discriminate ].
  intros H. eauto.
Qed.

(** The ways [removePermissionFromUserInThread] returns. *)
Lemma remove_inversion file d threadID userID commands b file' :
  getPermissionSettings file = Ok d ->
  removePermissionFromUserInThread file threadID userID commands = Ok (b, file') ->
  (b = false /\ file' = file
   /\ (user ← user_record_of d threadID userID; permissions user) = None)
  \/ (b = true
      /\ exists thread threadUsers user perms,
           d !! threadID = Some thread /\ users thread = Some threadUsers
           /\ threadUsers !! userID = Some user /\ permissions user = Some perms
           /\ ((perms = [] /\ file' = file)
               \/ (perms <> []
                   /\ file' = savePermissionSettings
                                (pruned d threadID userID threadUsers
                                   (remaining perms commands))))).
Proof.
  intros Hload Hremove.
  destruct (user ← user_record_of d threadID userID; permissions user)
    as [ perms | ] eqn:Hperms.
  - right.
    destruct (user_record_of d threadID userID) as [ user | ] eqn:Huser;
      [ | discriminate ].
    cbn in Hperms.
    destruct (user_record_path _ _ _ _ Huser) as (thread & threadUsers & Ht & Hu & Hr).
    destruct perms as [ | p perms ].
    + rewrite (remove_empty file d _ _ _ user) in Hremove by assumption.
      injection Hremove as <- <-. split; [ reflexivity | ].
      exists thread, threadUsers, user, []. auto 10.
    + rewrite (remove_filters file d _ _ _ thread threadUsers user (p :: perms))
        in Hremove by (assumption || discriminate).
      injection Hremove as <- <-. split; [ reflexivity | ].
      exists thread, threadUsers, user, (p :: perms).
      repeat (split; [ assumption | ]). right. split; [ discriminate | reflexivity ].
  - left. rewrite (remove_missing file d) in Hremove by assumption.
    injection Hremove as <- <-. auto.
Qed.

Section Registry.

Variable getThreadAdmins : string -> ThreadAdmins.

Lemma not_privileged_test threadID userID :
  ~ privileged getThreadAdmins threadID userID ->
  (let threadAdmins := getThreadAdmins threadID in
   includes (if hasError threadAdmins then [] else admins threadAdmins) userID
   || bool_decide (botOwner threadAdmins = Some userID)) = false.
Proof.
  intros Hnot. apply not_true_is_false. intros H. now apply Hnot, privileged_spec.
Qed.



End Registry.

Lemma permissions_of_record d threadID userID user perms :
  user_record_of d threadID userID = Some user ->
  permissions user = Some perms ->
  permissions_of d threadID userID = perms.
Proof. intros Huser Hperms. unfold permissions_of. rewrite Huser. cbn. now rewrite Hperms. Qed.

Lemma user_record_of_other_thread d threadID userID commands other user :
  other <> threadID ->
  user_record_of (granted d threadID userID commands) other user
  = user_record_of d other user.
Proof.
  intros Hne. unfold user_record_of, granted. now rewrite lookup_insert_ne by congruence.
Qed.

Lemma user_record_of_granted_same_thread d threadID userID commands other :
  other <> userID ->
  user_record_of (granted d threadID userID commands) threadID other
  = user_record_of d threadID other.
Proof.
  intros Hne. unfold user_record_of at 1, granted. rewrite lookup_insert_eq. cbn.
  rewrite lookup_insert_ne by congruence.
  unfold users_of, user_record_of.
  destruct (d !! threadID) as [ thread | ]; cbn; [ | apply lookup_empty ].
  destruct (users thread); cbn; [ reflexivity | apply lookup_empty ].
Qed.

Lemma holds_all_app user commands1 commands2 :
  holds_all user (commands1 ++ commands2)
  <-> holds_all user commands1 /\ holds_all user commands2.
Proof.
  unfold holds_all. split.
  - intros H. split; intros c Hc; apply H, elem_of_app; auto.
  - intros [H1 H2] c Hc. apply elem_of_app in Hc as [ Hc | Hc ]; auto.
Qed.

Section Laws.

Variable getThreadAdmins : string -> ThreadAdmins.


Lemma add_keeps_held file threadID userID commands b file' thread user held :
  userHasPermission getThreadAdmins file thread user held = Ok true ->
  addPermissionToUserInThread getThreadAdmins file threadID userID commands
  = Ok (b, file') ->
  userHasPermission getThreadAdmins file' thread user held = Ok true.
Proof.
  intros Hheld Hadd.
  apply add_cases in Hadd as (d & Hload & [ (_ & -> & _) | (_ & -> & _) ]);
    [ exact Hheld | ].
  apply (userHasPermission_true _ _ _ _ _ _ Hload) in Hheld.
  apply (userHasPermission_true _ _ _ _ _ _ (load_save _)).
  destruct Hheld as [ Hpriv | (record & Hrecord & Hall) ]; [ now left | right ].
  destruct (decide (thread = threadID)) as [ -> | Hthread ].
  - destruct (decide (user = userID)) as [ -> | Huser ].
    + eexists. split; [ apply user_record_of_granted | ].
      intros c Hc. destruct (Hall c Hc) as (perms & Hperms & Hin).
      eexists. split; [ reflexivity | ].
      rewrite (permissions_of_record _ _ _ _ _ Hrecord Hperms).
      apply elem_of_app. now left.
    + exists record. now rewrite user_record_of_granted_same_thread.
  - exists record. now rewrite user_record_of_other_thread.
Qed.

(** X2. An addition revokes nothing: a check that held before it, for any
    thread, user and commands, holds after it. *)
Theorem add_preserves_held file threadID userID commands b file' thread user held :
  userHasPermission getThreadAdmins file thread user held = Ok true ->
  addPermissionToUserInThread getThreadAdmins file threadID userID commands
  = Ok (b, file') ->
  userHasPermission getThreadAdmins file' thread user held = Ok true.
Proof.
  intros Hheld Hadd.
  exact (add_keeps_held file threadID userID commands b file' thread user held
           Hheld Hadd).
Qed.

(** X3. The check is conjunctive: it holds for two lists of commands put
    together exactly when it holds for each of them. *)
Theorem userHasPermission_app file d threadID userID commands1 commands2 :
  getPermissionSettings file = Ok d ->
  userHasPermission getThreadAdmins file threadID userID (commands1 ++ commands2)
  = Ok true
  <-> userHasPermission getThreadAdmins file threadID userID commands1 = Ok true
      /\ userHasPermission getThreadAdmins file threadID userID commands2 = Ok true.
Proof.
  intros Hload. rewrite !(userHasPermission_true _ _ _ _ _ _ Hload). split.
  - intros [ Hpriv | (user & Huser & Hall) ]; [ split; now left | ].
    apply holds_all_app in Hall as [H1 H2]. split; right; eauto.
  - intros [ [ Hpriv | (user & Huser & H1) ] [ Hpriv' | (user' & Huser' & H2) ] ];
      try (now left).
    right. exists user. split; [ exact Huser | ].
    apply holds_all_app. split; [ exact H1 | ].
    assert (user' = user) as -> by congruence. exact H2.
Qed.

End Laws.


Lemma add_preserves_held_witness :
  userHasPermission sample_registry sample_file "T1" "U1" ["meme"%string] = Ok true
  /\ (exists file',
        addPermissionToUserInThread sample_registry sample_file "T1" "U2" ["ban"%string]
        = Ok (true, file')
        /\ userHasPermission sample_registry file' "T1" "U1" ["meme"%string] = Ok true).
Proof.
  assert (Hheld : userHasPermission sample_registry sample_file "T1" "U1"
                    ["meme"%string] = Ok true) by (vm_compute; reflexivity).
  split; [ exact Hheld | ].
  eexists. split; [ vm_compute; reflexivity | ].
  apply (add_preserves_held sample_registry sample_file "T1" "U2" ["ban"%string]
           true _ "T1" "U1" ["meme"%string] Hheld).
  vm_compute. reflexivity.
Defined.

Lemma userHasPermission_app_witness :
  getPermissionSettings sample_file = Ok sample_document
  /\ (userHasPermission sample_registry sample_file "T1" "U1"
        (["meme"%string] ++ ["meme"%string]) = Ok true
      <-> userHasPermission sample_registry sample_file "T1" "U1" ["meme"%string]
          = Ok true
          /\ userHasPermission sample_registry sample_file "T1" "U1" ["meme"%string]
             = Ok true).
Proof.
  assert (Hload : getPermissionSettings sample_file = Ok sample_document)
    by (vm_compute; reflexivity).
  split; [ exact Hload | ].
  exact (userHasPermission_app sample_registry sample_file sample_document
           "T1" "U1" ["meme"%string] ["meme"%string] Hload).
Defined.

Lemma not_in_remaining perms commands command :
  command ∈ commands -> command ∉ remaining perms commands.
Proof. intros Hin H. unfold remaining in H. apply list_elem_of_filter in H. tauto. Qed.

Lemma remaining_idem perms commands :
  remaining (remaining perms commands) commands = remaining perms commands.
Proof. apply remaining_all. intros c Hc. now apply not_in_remaining. Qed.

Lemma user_record_of_pruned_cons d threadID userID threadUsers p perms :
  user_record_of (pruned d threadID userID threadUsers (p :: perms)) threadID userID
  = Some {| permissions := Some (p :: perms) |}.
Proof.
  unfold user_record_of, pruned. rewrite lookup_insert_eq. cbn.
  apply lookup_insert_eq.
Qed.

Lemma pruned_other_thread d threadID userID threadUsers perms other :
  other <> threadID ->
  pruned d threadID userID threadUsers perms !! other = d !! other.
Proof.
  intros Hne. unfold pruned. destruct perms; [ case_decide | ].
  - now rewrite lookup_delete_ne by congruence.
  - now rewrite lookup_insert_ne by congruence.
  - now rewrite lookup_insert_ne by congruence.
Qed.

Lemma pruned_other_user d threadID userID thread threadUsers perms other :
  d !! threadID = Some thread ->
  users thread = Some threadUsers ->
  other <> userID ->
  user_record_of (pruned d threadID userID threadUsers perms) threadID other
  = user_record_of d threadID other.
Proof.
  intros Hthread Husers Hne.
  rewrite (user_record_of_path d _ _ _ _ Hthread Husers).
  unfold user_record_of, pruned. destruct perms; [ case_decide as Hempty | ].
  - rewrite lookup_delete_eq. cbn.
    rewrite <- (lookup_delete_ne threadUsers userID other) by congruence.
    now rewrite Hempty, lookup_empty.
  - rewrite lookup_insert_eq. cbn. now rewrite lookup_delete_ne by congruence.
  - rewrite lookup_insert_eq. cbn. now rewrite lookup_insert_ne by congruence.
Qed.


(** X5. A removal repeated with the same arguments changes nothing more:
    the file is left as the first removal left it. *)
Theorem remove_twice file threadID userID commands b file' :
  removePermissionFromUserInThread file threadID userID commands = Ok (b, file') ->
  exists b',
    removePermissionFromUserInThread file' threadID userID commands = Ok (b', file').
Proof.
  intros Hremove.
  destruct (remove_loads _ _ _ _ _ _ Hremove) as [d Hload].
  destruct (remove_inversion _ _ _ _ _ _ _ Hload Hremove)
    as [ (_ & -> & _) | (_ & thread & threadUsers & user & perms & Ht & Hu & Hr & Hp & Hcase) ];
    [ eauto | ].
  destruct Hcase as [ (_ & ->) | (Hne & ->) ]; [ eauto | ].
  destruct (remaining perms commands) as [ | q left ] eqn:Hleft.
  - exists false. apply (remove_missing _ _ _ _ _ (load_save _)).
    now rewrite user_record_of_pruned_nil.
  - exists true.
    pose proof (user_record_of_pruned_cons d threadID userID threadUsers q left) as Hrec.
    destruct (user_record_path _ _ _ _ Hrec) as (thread' & users' & Ht' & Hu' & Hr').
    rewrite (remove_filters _ _ _ _ _ thread' users'
               {| permissions := Some (q :: left) |} (q :: left) (load_save _))
      by (assumption || reflexivity || discriminate).
    rewrite <- Hleft at 2. rewrite remaining_idem, Hleft.
    now rewrite (pruned_same _ _ _ thread' users'
                   {| permissions := Some (q :: left) |} (q :: left))
      by (assumption || reflexivity || discriminate).
Qed.

(** X6. A removal touches one User Record only: the other threads and the
    records of the other users of the thread are as they were. *)
Theorem remove_frame file d threadID userID commands b file' :
  getPermissionSettings file = Ok d ->
  removePermissionFromUserInThread file threadID userID commands = Ok (b, file') ->
  exists d',
    getPermissionSettings file' = Ok d'
    /\ (forall other, other <> threadID -> d' !! other = d !! other)
    /\ (forall other, other <> userID ->
          user_record_of d' threadID other = user_record_of d threadID other).
Proof.
  intros Hload Hremove.
  destruct (remove_inversion _ _ _ _ _ _ _ Hload Hremove)
    as [ (_ & -> & _) | (_ & thread & threadUsers & user & perms & Ht & Hu & Hr & Hp & Hcase) ];
    [ exists d; auto | ].
  destruct Hcase as [ (_ & ->) | (Hne & ->) ]; [ exists d; auto | ].
  eexists. split; [ apply load_save | ]. split.
  - intros other Hother. now apply pruned_other_thread.
  - intros other Hother. now apply (pruned_other_user d _ _ thread).
Qed.



Lemma remove_twice_witness :
  removePermissionFromUserInThread two_users_file "T1" "U1" ["meme"%string]
  = Ok (true, savePermissionSettings (granted ∅ "T1" "U2" ["meme"%string]))
  /\ exists b',
       removePermissionFromUserInThread
         (savePermissionSettings (granted ∅ "T1" "U2" ["meme"%string]))
         "T1" "U1" ["meme"%string]
       = Ok (b', savePermissionSettings (granted ∅ "T1" "U2" ["meme"%string])).
Proof.
  assert (Hremove : removePermissionFromUserInThread two_users_file "T1" "U1"
                      ["meme"%string]
                    = Ok (true, savePermissionSettings
                                  (granted ∅ "T1" "U2" ["meme"%string])))
    by (vm_compute; reflexivity).
  split; [ exact Hremove | ].
  exact (remove_twice two_users_file "T1" "U1" ["meme"%string] true _ Hremove).
Defined.

Lemma remove_frame_witness :
  getPermissionSettings two_users_file = Ok two_users_document
  /\ removePermissionFromUserInThread two_users_file "T1" "U1" ["meme"%string]
     = Ok (true, savePermissionSettings (granted ∅ "T1" "U2" ["meme"%string]))
  /\ exists d',
       getPermissionSettings
         (savePermissionSettings (granted ∅ "T1" "U2" ["meme"%string])) = Ok d'
       /\ (forall other, other <> "T1"%string -> d' !! other = two_users_document !! other)
       /\ (forall other, other <> "U1"%string ->
             user_record_of d' "T1" other = user_record_of two_users_document "T1" other).
Proof.
  assert (Hload : getPermissionSettings two_users_file = Ok two_users_document)
    by (vm_compute; reflexivity).
  assert (Hremove : removePermissionFromUserInThread two_users_file "T1" "U1"
                      ["meme"%string]
                    = Ok (true, savePermissionSettings
                                  (granted ∅ "T1" "U2" ["meme"%string])))
    by (vm_compute; reflexivity).
  split; [ exact Hload | split; [ exact Hremove | ] ].
  exact (remove_frame two_users_file two_users_document "T1" "U1" ["meme"%string]
           true _ Hload Hremove).
Defined.


(** X8. The addition's own defaults for a missing [users] mapping and a
    missing [permissions] collection are never reached for a user who is
    neither administrator nor owner: the check that comes first throws a
    TypeError on a Thread Record without [users], and on a User Record
    without [permissions] when commands are requested.  The removal, which
    guards every level, returns false there and writes nothing. *)
Theorem add_throws_where_remove_returns getThreadAdmins file d threadID userID commands :
  getPermissionSettings file = Ok d ->
  ~ privileged getThreadAdmins threadID userID ->
  (exists thread, d !! threadID = Some thread /\ users thread = None)
  \/ (commands <> []
      /\ exists user, user_record_of d threadID userID = Some user
                      /\ permissions user = None) ->
  userHasPermission getThreadAdmins file threadID userID commands = Err TypeError
  /\ addPermissionToUserInThread getThreadAdmins file threadID userID commands
     = Err TypeError
  /\ removePermissionFromUserInThread file threadID userID commands = Ok (false, file).
Proof.
  intros Hload Hnot Hshape.
  assert (Hcheck : userHasPermission getThreadAdmins file threadID userID commands
                   = Err TypeError).
  { unfold userHasPermission. rewrite Hload. cbn [bind].
    pose proof (not_privileged_test _ _ _ Hnot) as Htest. cbn zeta in Htest |- *.
    rewrite Htest.
    destruct Hshape as [ (thread & -> & ->) | (Hne & user & Huser & Hperms) ];
      [ reflexivity | ].
    destruct (user_record_path _ _ _ _ Huser) as (thread & threadUsers & -> & -> & ->).
    rewrite Hperms. destruct commands; [ contradiction | reflexivity ]. }
  split; [ exact Hcheck | ]. split; [ now apply add_throws | ].
  apply (remove_missing file d); [ exact Hload | ].
  destruct Hshape as [ (thread & Ht & Hu) | (_ & user & Huser & Hperms) ].
  - unfold user_record_of. rewrite Ht. cbn. now rewrite Hu.
  - rewrite Huser. exact Hperms.
Qed.

Lemma add_throws_where_remove_returns_witness :
  getPermissionSettings bare_user_file
  = Ok {[ "T1"%string := {| users := Some {[ "U1"%string := {| permissions := None |} ]} |} ]}
  /\ ~ privileged sample_registry "T1" "U1"
  /\ addPermissionToUserInThread sample_registry bare_user_file "T1" "U1" ["meme"%string]
     = Err TypeError.
Proof.
  assert (Hload : getPermissionSettings bare_user_file
                  = Ok {[ "T1"%string :=
                            {| users := Some {[ "U1"%string := {| permissions := None |} ]} |} ]})
    by (vm_compute; reflexivity).
  assert (Hnot : ~ privileged sample_registry "T1" "U1").
  { intros H. apply privileged_spec in H. vm_compute in H. discriminate. }
  split; [ exact Hload | split; [ exact Hnot | ] ].
  apply (add_throws_where_remove_returns sample_registry bare_user_file _
           "T1" "U1" ["meme"%string] Hload Hnot).
  right. split; [ discriminate | ].
  exists {| permissions := None |}. split; [ vm_compute; reflexivity | reflexivity ].
Defined.

Lemma skip_ws_blank s :
  Forall (fun c => JSON.is_ws c = true) s -> JSON.skip_ws s = [].
Proof.
  induction 1 as [ | c s Hc _ IH ]; [ reflexivity | ].
  cbn [JSON.skip_ws]. now rewrite Hc.
Qed.

Lemma parse_blank text :
  Forall (fun c => JSON.is_ws c = true) (list_ascii_of_string text) ->
  JSON.parse text = Err SyntaxError.
Proof.
  intros Hblank. unfold JSON.parse. cbn zeta. rewrite Nat.add_1_r.
  cbn [JSON.parse_value]. cbn zeta. rewrite (skip_ws_blank _ Hblank). reflexivity.
Qed.

(** X9. Only the empty text is read as the empty document: a file that
    holds white space and nothing else makes the load throw a SyntaxError,
    and with it the check (administrators and the owner included), the
    addition and the removal. *)
Theorem blank_file_throws getThreadAdmins file threadID userID commands :
  file <> EmptyString ->
  Forall (fun c => JSON.is_ws c = true) (list_ascii_of_string file) ->
  getPermissionSettings file = Err SyntaxError
  /\ userHasPermission getThreadAdmins file threadID userID commands = Err SyntaxError
  /\ addPermissionToUserInThread getThreadAdmins file threadID userID commands
     = Err SyntaxError
  /\ removePermissionFromUserInThread file threadID userID commands = Err SyntaxError.
Proof.
  intros Hne Hblank.
  assert (Hload : getPermissionSettings file = Err SyntaxError).
  { unfold getPermissionSettings. cbn zeta.
    destruct (String.eqb_spec file EmptyString) as [ E | _ ]; [ contradiction | ].
    now rewrite parse_blank. }
  assert (Hcheck : userHasPermission getThreadAdmins file threadID userID commands
                   = Err SyntaxError).
  { unfold userHasPermission. now rewrite Hload. }
  split; [ exact Hload | ]. split; [ exact Hcheck | ]. split.
  - now apply add_throws.
  - unfold removePermissionFromUserInThread. now rewrite Hload.
Qed.

Lemma blank_file_throws_witness :
  String "010" EmptyString <> EmptyString
  /\ userHasPermission sample_registry (String "010" EmptyString) "T1" "A1" []
     = Err SyntaxError.
Proof.
  assert (Hne : String "010" EmptyString <> EmptyString) by discriminate.
  split; [ exact Hne | ].
  apply (blank_file_throws sample_registry (String "010" EmptyString) "T1" "A1" [] Hne).
  repeat constructor.
Defined.

(** X10. Nothing is deduplicated: when an addition returns true although
    the user held one of the commands already, the stored collection is the
    old one followed by the whole list, so that command is stored twice. *)
Theorem add_duplicates getThreadAdmins file d threadID userID commands file' command :
  getPermissionSettings file = Ok d ->
  addPermissionToUserInThread getThreadAdmins file threadID userID commands
  = Ok (true, file') ->
  command ∈ permissions_of d threadID userID ->
  command ∈ commands ->
  exists d',
    getPermissionSettings file' = Ok d'
    /\ permissions_of d' threadID userID = permissions_of d threadID userID ++ commands
    /\ ~ NoDup (permissions_of d' threadID userID).
Proof.
  intros Hload Hadd Hold Hnew.
  apply add_cases in Hadd as (d0 & Hload0 & [ (Hb & _) | (_ & -> & _) ]);
    [ discriminate | ].
  assert (d0 = d) as -> by congruence.
  eexists. split; [ apply load_save | ].
  assert (Hperms : permissions_of (granted d threadID userID commands) threadID userID
                   = permissions_of d threadID userID ++ commands).
  { unfold permissions_of at 1. now rewrite user_record_of_granted. }
  split; [ exact Hperms | ]. rewrite Hperms. intros Hnodup.
  apply NoDup_app in Hnodup as (_ & Hdisjoint & _). exact (Hdisjoint _ Hold Hnew).
Qed.

Lemma add_duplicates_witness :
  getPermissionSettings sample_file = Ok sample_document
  /\ exists d',
       getPermissionSettings
         (savePermissionSettings
            (granted sample_document "T1" "U1" ["meme"%string; "ban"%string]))
       = Ok d'
       /\ permissions_of d' "T1" "U1"
          = permissions_of sample_document "T1" "U1" ++ ["meme"%string; "ban"%string]
       /\ ~ NoDup (permissions_of d' "T1" "U1").
Proof.
  assert (Hload : getPermissionSettings sample_file = Ok sample_document)
    by (vm_compute; reflexivity).
  split; [ exact Hload | ].
  apply (add_duplicates sample_registry sample_file sample_document "T1" "U1"
           ["meme"%string; "ban"%string] _ "meme" Hload).
  - vm_compute. reflexivity.
  - vm_compute. left.
  - left.
Defined.






End StoreLaws.

(** * Further properties of the command *)

Module CommandLaws.
Import PermissionUtil PermissionCommand StoreFacts CommandFacts.

(** [split] never returns the empty array. *)
Lemma split_cons sep s : exists first rest, split sep s = first :: rest.
Proof.
  destruct s as [ | c s ]; cbn [split]; [ eauto | ].
  destruct (Ascii.eqb c sep); [ eauto | ].
  destruct (split sep s); eauto.
Qed.

Lemma join_cons sep first second rest :
  join sep (first :: second :: rest) = first +:+ sep +:+ join sep (second :: rest).
Proof. reflexivity. Qed.

Lemma join_split sep s : join (String sep EmptyString) (split sep s) = s.
Proof.
  induction s as [ | c s IH ]; [ reflexivity | ]. cbn [split].
  destruct (split_cons sep s) as (first & rest & Hsplit). rewrite Hsplit in IH |- *.
  destruct (Ascii.eqb_spec c sep) as [ -> | Hne ].
  - rewrite join_cons, IH. reflexivity.
  - destruct rest as [ | second rest ].
    + cbn in IH |- *. now rewrite IH.
    + rewrite <- IH. reflexivity.
Qed.

Lemma assign_keys key value persons :
  (assign key value persons).*1
  = if bool_decide (key ∈ persons.*1) then persons.*1 else persons.*1 ++ [key].
Proof.
  induction persons as [ | [k v] persons IH ]; [ reflexivity | ].
  cbn [assign]. destruct (String.eqb_spec k key) as [ -> | Hne ].
  - cbn. rewrite bool_decide_eq_true_2 by left. reflexivity.
  - cbn [fmap list_fmap fst] in *. rewrite IH.
    destruct (bool_decide (key ∈ persons.*1)) eqn:Hin.
    + apply bool_decide_eq_true in Hin.
      rewrite bool_decide_eq_true_2 by now right. reflexivity.
    + apply bool_decide_eq_false in Hin.
      rewrite bool_decide_eq_false_2; [ reflexivity | ].
      intros H. apply elem_of_cons in H as [ H | H ]; congruence.
Qed.

Lemma assign_NoDup key value persons :
  NoDup persons.*1 -> NoDup (assign key value persons).*1.
Proof.
  intros H. rewrite assign_keys. case_bool_decide as Hin; [ exact H | ].
  apply NoDup_app. split; [ exact H | ]. split; [ | apply NoDup_singleton ].
  intros k Hk Hkey. apply list_elem_of_singleton in Hkey. now subst.
Qed.

Lemma assign_key_elem key value persons k :
  k ∈ (assign key value persons).*1 <-> k ∈ persons.*1 \/ k = key.
Proof.
  rewrite assign_keys. case_bool_decide as Hin.
  - split; [ now left | ]. intros [ H | -> ]; assumption.
  - rewrite elem_of_app, list_elem_of_singleton. reflexivity.
Qed.

Lemma assign_elem key value persons k v :
  (k, v) ∈ assign key value persons -> (k, v) ∈ persons \/ (k = key /\ v = value).
Proof.
  induction persons as [ | [k' v'] persons IH ]; cbn [assign].
  - intros H. apply list_elem_of_singleton in H. injection H as -> ->. now right.
  - destruct (String.eqb_spec k' key) as [ -> | Hne ]; intros H;
      apply elem_of_cons in H as [ H | H ].
    + injection H as -> ->. now right.
    + left. now right.
    + left. rewrite H. left.
    + destruct (IH H) as [ H' | H' ]; [ left; now right | now right ].
Qed.

(** The loop of [everyone], over any list of participants. *)
Lemma everyone_thrown infos ids e :
  fold_left
    (fun acc participantID =>
       do persons <- acc;
       match List.find (fun uinfo => String.eqb (id uinfo) participantID) infos with
       | Some uinfo => Ok (assign (id uinfo) ("@" +:+ user_name uinfo) persons)
       | None => Err TypeError
       end)
    ids (Err e)
  = Err e.
Proof. induction ids as [ | pid ids IH ]; [ reflexivity | exact IH ]. Qed.

Lemma everyone_throws threadInfo persons :
  ~ participants_known threadInfo ->
  everyone threadInfo persons = Err TypeError.
Proof.
  unfold participants_known, everyone. destruct threadInfo as [ ids infos ].
  cbn [participantIDs userInfo]. revert persons.
  induction ids as [ | pid ids IH ]; intros persons Hnot.
  - exfalso. apply Hnot. intros pid H. inversion H.
  - cbn [fold_left bind].
    destruct (List.find (fun uinfo => String.eqb (id uinfo) pid) infos)
      as [ uinfo | ] eqn:Hfind; [ | apply everyone_thrown ].
    apply IH. intros Hrest. apply Hnot. intros p Hp.
    apply elem_of_cons in Hp as [ -> | Hp ]; [ | now apply Hrest ].
    apply find_some in Hfind as [Hin Hid]. apply String.eqb_eq in Hid.
    exists uinfo. split; [ now apply list_elem_of_In | exact Hid ].
Qed.

Lemma everyone_keys threadInfo persons persons' :
  NoDup persons.*1 ->
  everyone threadInfo persons = Ok persons' ->
  NoDup persons'.*1
  /\ (forall k, k ∈ persons'.*1 <-> k ∈ persons.*1 \/ k ∈ participantIDs threadInfo)
  /\ (forall k v, (k, v) ∈ persons' ->
        (k, v) ∈ persons
        \/ exists uinfo, uinfo ∈ userInfo threadInfo /\ id uinfo = k
                         /\ v = "@" +:+ user_name uinfo).
Proof.
  unfold everyone. destruct threadInfo as [ ids infos ].
  cbn [participantIDs userInfo]. revert persons.
  induction ids as [ | pid ids IH ]; intros persons Hnodup.
  - cbn [fold_left]. intros [= <-]. split; [ exact Hnodup | ].
    split; [ | now left ].
    intros k. split; [ now left | ]. intros [ H | H ]; [ exact H | inversion H ].
  - cbn [fold_left bind].
    destruct (List.find (fun uinfo => String.eqb (id uinfo) pid) infos)
      as [ uinfo | ] eqn:Hfind; [ | rewrite everyone_thrown; discriminate ].
    apply find_some in Hfind as [Hin Hid]. apply String.eqb_eq in Hid.
    apply list_elem_of_In in Hin. intros Hfold.
    destruct (IH _ (assign_NoDup (id uinfo) ("@" +:+ user_name uinfo) persons Hnodup)
                Hfold) as (Hnd & Hkeys & Htags).
    split; [ exact Hnd | ]. split.
    + intros k. rewrite Hkeys, assign_key_elem, elem_of_cons, Hid. tauto.
    + intros k v Hkv. destruct (Htags k v Hkv) as [ H | H ]; [ | now right ].
      apply assign_elem in H as [ H | [-> ->] ]; [ now left | right ].
      exists uinfo. auto.
Qed.

(** X12. With [@all] and no mention, the targets are the participants of
    the thread and no one else, each once however often the thread info
    lists them, tagged with an at sign and the name of a user of that ID;
    and the loop throws a TypeError exactly when a participant is missing
    from the users of the thread info. *)
Theorem everyone_targets threadInfo :
  (participants_known threadInfo ->
   exists persons,
     everyone threadInfo [] = Ok persons
     /\ NoDup persons.*1
     /\ (forall k, k ∈ persons.*1 <-> k ∈ participantIDs threadInfo)
     /\ (forall k v, (k, v) ∈ persons ->
           exists uinfo, uinfo ∈ userInfo threadInfo /\ id uinfo = k
                         /\ v = "@" +:+ user_name uinfo))
  /\ (~ participants_known threadInfo -> everyone threadInfo [] = Err TypeError).
Proof.
  split; [ | apply everyone_throws ].
  intros Hknown. destruct (everyone_returns threadInfo [] Hknown) as [ persons Hok ].
  exists persons. split; [ exact Hok | ].
  destruct (everyone_keys threadInfo [] persons (NoDup_nil_2) Hok)
    as (Hnd & Hkeys & Htags).
  split; [ exact Hnd | ]. split.
  - intros k. rewrite Hkeys. split; [ intros [ H | H ]; [ inversion H | exact H ] | now right ].
  - intros k v Hkv. destruct (Htags k v Hkv) as [ H | H ]; [ inversion H | exact H ].
Qed.

Lemma sample_participants_known : participants_known (sample_thread_info "T1").
Proof.
  intros pid Hpid. cbn in Hpid.
  apply elem_of_cons in Hpid as [ -> | Hpid ];
    [ exists {| id := "U1"; user_name := "Bob" |}; split; [ left | reflexivity ] | ].
  apply list_elem_of_singleton in Hpid as ->.
  exists {| id := "U2"; user_name := "Al" |}. split; [ right; left | reflexivity ].
Qed.

Lemma everyone_targets_witness :
  participants_known (sample_thread_info "T1")
  /\ exists persons,
       everyone (sample_thread_info "T1") [] = Ok persons
       /\ NoDup persons.*1
       /\ (forall k, k ∈ persons.*1 <-> k ∈ participantIDs (sample_thread_info "T1"))
       /\ (forall k v, (k, v) ∈ persons ->
             exists uinfo, uinfo ∈ userInfo (sample_thread_info "T1") /\ id uinfo = k
                           /\ v = "@" +:+ user_name uinfo).
Proof.
  split; [ exact sample_participants_known | ].
  exact (proj1 (everyone_targets (sample_thread_info "T1")) sample_participants_known).
Defined.

Section Collaborators.

Variable getThreadAdmins : string -> ThreadAdmins.
Variable getThreadInfo : string -> ThreadInfo.

(** X13. A grant or a revocation for [@all], without mentions, throws a
    TypeError when the thread info misses a participant among its users,
    whatever commands are requested. *)
Theorem execute_all_throws matches event commands w action requested text :
  action = "grant"%string \/ action = "revoke"%string ->
  matches !! 0 = Some text ->
  matches !! 1 = Some action ->
  matches !! 2 = Some requested ->
  mentions event = [] ->
  lacks text "@all" = false ->
  ~ participants_known (getThreadInfo (threadID event)) ->
  execute getThreadAdmins getThreadInfo matches event commands w = Err TypeError.
Proof.
  intros Haction Htext Hact Hreq Hnone Hall Hnot. unfold execute.
  rewrite Hact, Hreq, Hnone. cbn [from_option bind].
  destruct Haction as [ -> | -> ]; cbn [String.eqb Ascii.eqb Bool.eqb].
  - unfold grant. cbn [length Nat.eqb]. rewrite Htext. cbn [from_option bind].
    now rewrite Hall, everyone_throws.
  - unfold revoke. cbn [length Nat.eqb]. rewrite Htext. cbn [from_option bind].
    now rewrite Hall, everyone_throws.
Qed.

(** X14. When the entries of the request carry no white space around them,
    as with [all] over a registry of trimmed names, no command registered
    for administrators only is among the commands applied to the store. *)
Theorem applied_excludes_admin_only commandsToGive commands applied_command command :
  (forall entry, entry ∈ commandsToGive -> trim entry = entry) ->
  applied_command ∈ applied commandsToGive commands ->
  command ∈ commands ->
  adminOnly command = true ->
  name command <> applied_command.
Proof.
  intros Htrimmed Happlied Hcommand Hadmin Hname. unfold applied in Happlied.
  apply list_elem_of_In, in_map_iff in Happlied as (entry & Hentry & Hin).
  apply filter_In in Hin as [Hin Hkeep]. apply list_elem_of_In in Hin.
  rewrite (Htrimmed entry Hin) in Hentry. subst entry.
  apply negb_true_iff, includes_false in Hkeep. apply Hkeep.
  rewrite <- Hname. apply list_elem_of_In, in_map, filter_In.
  split; [ now apply list_elem_of_In | exact Hadmin ].
Qed.

(** X15. The warning for unknown commands quotes the request as it was
    typed, trimmed at its two ends: the entries split at the commas are
    joined by commas again. *)
Theorem unknown_warning_quotes_request matches event commands w requested :
  matches !! 2 = Some requested ->
  mentions event <> [] ->
  head (split "," (trim requested)) <> Some "all"%string ->
  (forall command, command ∈ commands ->
     name command ∉ split "," (trim requested)) ->
  (matches !! 1 = Some "grant"%string ->
   execute getThreadAdmins getThreadInfo matches event commands w
   = Ok (sendMessage
           (Text ("⚠️ Unknown command(s): '" +:+ trim requested +:+ "'.")) w))
  /\ (matches !! 1 = Some "revoke"%string ->
      execute getThreadAdmins getThreadInfo matches event commands w
      = Ok (sendMessage
              (Text ("⚠️Unknown command(s): '" +:+ trim requested +:+ "'.")) w)).
Proof.
  intros Hreq Hmentions Hall Hunknown.
  split; intros Hact; unfold execute; rewrite Hact, Hreq;
    cbn [from_option bind String.eqb Ascii.eqb Bool.eqb].
  - unfold grant. rewrite bool_decide_eq_false_2 by exact Hall.
    destruct (mentions event) as [ | person persons ]; [ contradiction | ].
    cbn [length Nat.eqb]. rewrite grant_commands_unknown by exact Hunknown.
    now rewrite (join_split "," (trim requested)).
  - unfold revoke. rewrite bool_decide_eq_false_2 by exact Hall.
    destruct (mentions event) as [ | person persons ]; [ contradiction | ].
    cbn [length Nat.eqb]. rewrite revoke_commands_unknown by exact Hunknown.
    now rewrite (join_split "," (trim requested)).
Qed.

End Collaborators.

Lemma execute_all_throws_witness :
  ~ participants_known (partial_thread_info (threadID bare_event))
  /\ execute sample_registry partial_thread_info
       ["permission grant meme @all"%string; "grant"%string; "meme "%string;
        "@all"%string]
       bare_event sample_commands empty_world
     = Err TypeError.
Proof.
  assert (Hnot : ~ participants_known (partial_thread_info (threadID bare_event))).
  { intros H. destruct (H "U3"%string) as (uinfo & Hin & Hid); [ right; left | ].
    apply list_elem_of_singleton in Hin. subst uinfo. discriminate. }
  split; [ exact Hnot | ].
  apply (execute_all_throws sample_registry partial_thread_info _ bare_event
           sample_commands empty_world "grant" "meme " "permission grant meme @all");
    try reflexivity.
  - left. reflexivity.
  - exact Hnot.
Defined.

Lemma applied_excludes_admin_only_witness :
  (forall entry, entry ∈ ["meme"%string; "ban"%string] -> trim entry = entry)
  /\ "meme"%string ∈ applied ["meme"%string; "ban"%string] sample_commands
  /\ name {| name := "ban"; adminOnly := true |} <> "meme"%string.
Proof.
  assert (Htrimmed : forall entry, entry ∈ ["meme"%string; "ban"%string] ->
                       trim entry = entry).
  { intros entry H. apply elem_of_cons in H as [ -> | H ]; [ reflexivity | ].
    apply list_elem_of_singleton in H as ->. reflexivity. }
  assert (Happlied : "meme"%string ∈ applied ["meme"%string; "ban"%string] sample_commands)
    by (vm_compute; left).
  split; [ exact Htrimmed | split; [ exact Happlied | ] ].
  apply (applied_excludes_admin_only ["meme"%string; "ban"%string] sample_commands
           "meme" {| name := "ban"; adminOnly := true |} Htrimmed Happlied).
  - right. left.
  - reflexivity.
Defined.

Lemma unknown_warning_quotes_request_witness :
  execute sample_registry sample_thread_info
    ["permission grant foo, bar @Bob"%string; "grant"%string; "foo, bar "%string;
     "@Bob"%string]
    sample_event sample_commands empty_world
  = Ok (sendMessage (Text "⚠️ Unknown command(s): 'foo, bar'.") empty_world).
Proof.
  refine (proj1 (unknown_warning_quotes_request sample_registry sample_thread_info
                   ["permission grant foo, bar @Bob"%string; "grant"%string;
                    "foo, bar "%string; "@Bob"%string]
                   sample_event sample_commands empty_world "foo, bar "
                   eq_refl _ _ _) eq_refl).
  - discriminate.
  - vm_compute. discriminate.
  - intros command Hc Hin. vm_compute in Hin.
    repeat (apply elem_of_cons in Hc as [ -> | Hc ];
            [ repeat (apply elem_of_cons in Hin as [ Hin | Hin ]; [ discriminate | ]);
              inversion Hin | ]).
    inversion Hc.
Defined.



Section Loops.

Variable getThreadAdmins : string -> ThreadAdmins.
Variable getThreadInfo : string -> ThreadInfo.








End Loops.




(** White space at the two ends of a text and what [trim] leaves. *)
Lemma trim_start_split s :
  exists spaces,
    s = spaces ++ trim_start s /\ Forall (fun c => is_space c = true) spaces.
Proof.
  induction s as [ | c s (spaces & Hs & Hall) ]; [ exists []; auto | ].
  cbn [trim_start]. destruct (is_space c) eqn:Hc.
  - exists (c :: spaces). split; [ cbn; congruence | now constructor ].
  - exists []. auto.
Qed.

Lemma trim_start_head s c r : trim_start s = c :: r -> is_space c = false.
Proof.
  induction s as [ | c' s IH ]; [ discriminate | ]. cbn [trim_start].
  destruct (is_space c') eqn:Hc; [ exact IH | ]. now intros [= <- <-].
Qed.

Lemma trim_start_fixed s :
  (forall c r, s = c :: r -> is_space c = false) -> trim_start s = s.
Proof.
  destruct s as [ | c s ]; [ reflexivity | ]. intros H. cbn [trim_start].
  now rewrite (H c s eq_refl).
Qed.

Lemma trim_idem s : trim (trim s) = trim s.
Proof.
  unfold trim. rewrite list_ascii_of_string_of_list_ascii. f_equal.
  set (a := trim_start (list_ascii_of_string s)).
  set (b := trim_start (rev a)).
  assert (Hb : forall c r, b = c :: r -> is_space c = false)
    by (intros c r; apply trim_start_head).
  destruct (trim_start_split (rev a)) as (spaces & Hrev & _). fold b in Hrev.
  assert (Ha : a = rev b ++ rev spaces).
  { rewrite <- (rev_involutive a), Hrev. apply rev_app_distr. }
  assert (Hhead : forall c r, rev b = c :: r -> is_space c = false).
  { intros c r Hr. apply (trim_start_head (list_ascii_of_string s) c (r ++ rev spaces)).
    fold a. rewrite Ha, Hr. reflexivity. }
  rewrite (trim_start_fixed (rev b) Hhead), rev_involutive.
  now rewrite (trim_start_fixed b Hb).
Qed.

(** X18. Every command applied to the store is trimmed: it carries no
    white space at either end, whatever the request. *)
Theorem applied_commands_trimmed commandsToGive commands command :
  command ∈ applied commandsToGive commands -> trim command = command.
Proof.
  unfold applied. intros H.
  apply list_elem_of_In, in_map_iff in H as (entry & <- & _). apply trim_idem.
Qed.

Lemma applied_commands_trimmed_witness :
  "ban"%string ∈ applied [" ban "%string] sample_commands
  /\ trim "ban" = "ban"%string.
Proof.
  assert (H : "ban"%string ∈ applied [" ban "%string] sample_commands)
    by (vm_compute; left).
  split; [ exact H | ].
  exact (applied_commands_trimmed [" ban "%string] sample_commands "ban" H).
Defined.



End CommandLaws.
